(** * wink-bm25-text-search: a shallow embedding of [src/wink-bm25-text-search.js]

    The engine is a closure over a dozen mutable variables; here it is a
    record [engine] and every exposed function is a state transformer
    [engine -> ... -> engine * result _].  The state that is returned with a
    [Throw] is the state at the [throw] statement, so a mutation made before
    a failed check is visible in the model exactly as it is in the program.

    JavaScript numbers are IEEE-754 doubles: they are Rocq's primitive
    [float]s, with the operators of [PrimFloat].  The document counter
    [totalDocs] and list lengths are integers (exact doubles below 2^53)
    and are kept as [Z] and [nat], converted where the program divides.
    [Math.log] is implementation-approximated by the language standard, so
    the development is parameterised by it. *)

From Stdlib Require Import List String Ascii Bool ZArith Lia Floats.
From Stdlib Require Import Sorting.Sorted Permutation.

Import ListNotations.

#[local] Set Warnings "-inexact-float".

Local Open Scope string_scope.
Local Open Scope Z_scope.
Local Open Scope list_scope.

(** ** Numbers *)

(** A number as it sits in a property of the engine's objects: a double, or
    [null] (what [JSON.stringify] writes for NaN and the infinities, and what a
    snapshot therefore hands back). *)
Inductive jsnum : Type :=
| Num (f : float)
| NullNum.

(** [ToNumber]: the coercion every arithmetic operator applies. *)
Definition ToNumber (v : jsnum) : float :=
  match v with
  | Num f => f
  | NullNum => 0%float
  end.

Definition float_of_nat (n : nat) : float :=
  PrimFloat.of_uint63 (Uint63.of_Z (Z.of_nat n)).

Definition float_of_Z (z : Z) : float :=
  if z <? 0 then PrimFloat.opp (PrimFloat.of_uint63 (Uint63.of_Z (- z)))
  else PrimFloat.of_uint63 (Uint63.of_Z z).

(** [Math.sign]: 1 or -1 for a positive or negative number, and the argument
    itself for +0, -0 and NaN. *)
Definition Math_sign (x : float) : float :=
  if (0 <? x)%float then 1%float
  else if (x <? 0)%float then (-1)%float
  else x.

Definition Math_abs (x : float) : float := PrimFloat.abs x.

(** [x || 0] on numbers: 0, -0 and NaN are falsy. *)
Definition or_zero (x : float) : float :=
  if PrimFloat.is_zero x || PrimFloat.is_nan x then 0%float else x.

(** ** Objects used as maps *)

(** Own properties, in insertion order.  (A runtime enumerates integer-like
    keys first; nothing below depends on the order of enumeration but the
    order of equal scores in a search result.) *)
Definition props (A : Type) : Type := list (string * A).

Fixpoint lookup {A : Type} (k : string) (l : props A) : option A :=
  match l with
  | [] => None
  | (k', v) :: r => if String.eqb k' k then Some v else lookup k r
  end.

(** [o[k] = v]: overwrite the property in place, or append a new one. *)
Fixpoint assign {A : Type} (k : string) (v : A) (l : props A) : props A :=
  match l with
  | [] => [(k, v)]
  | (k', v') :: r =>
      if String.eqb k' k then (k, v) :: r else (k', v') :: assign k v r
  end.

Definition keys {A : Type} (l : props A) : list string := map fst l.

(** An object is either created by [Object.create( null )] (no prototype) or
    by [JSON.parse], which makes ordinary objects that inherit from
    [Object.prototype]. *)
Record object (A : Type) : Type := mkObject {
  inherits : bool;
  own : props A
}.

Arguments mkObject {A} _ _.
Arguments inherits {A} _.
Arguments own {A} _.

(** The members of [Object.prototype], each a function, with its [length]. *)
Definition ObjectPrototype : props nat :=
  [ ("constructor", 1%nat); ("toString", 0%nat); ("toLocaleString", 0%nat);
    ("valueOf", 0%nat); ("hasOwnProperty", 1%nat); ("isPrototypeOf", 1%nat);
    ("propertyIsEnumerable", 1%nat); ("__defineGetter__", 2%nat);
    ("__defineSetter__", 2%nat); ("__lookupGetter__", 1%nat);
    ("__lookupSetter__", 1%nat) ].

(** What [o[k]] evaluates to: [undefined], an own property, or something
    found on the prototype (a member function, or for ["__proto__"] the
    prototype itself); the last two are not [undefined] and are truthy. *)
Inductive looked (A : Type) : Type :=
| Undefined
| Own (a : A)
| Inherited (name : string).

Arguments Undefined {A}.
Arguments Own {A} _.
Arguments Inherited {A} _.

Definition on_prototype (k : string) : bool :=
  match lookup k ObjectPrototype with
  | Some _ => true
  | None => String.eqb k "__proto__"
  end.

Definition get {A : Type} (o : object A) (k : string) : looked A :=
  match lookup k (own o) with
  | Some v => Own v
  | None => if inherits o && on_prototype k then Inherited k else Undefined
  end.

(** [o[k] = v] where [k] is an own property or is not found at all. *)
Definition put {A : Type} (o : object A) (k : string) (v : A) : object A :=
  mkObject (inherits o) (assign k v (own o)).

Definition empty_object {A : Type} : object A := mkObject false [].

(** ** Errors and results *)

(** The engine throws [Error( 'winkBM25S: ...' )]; the first five kinds
    classify those throw statements as the specification does, by source
    line:
    - [InvalidArgument]: 131, 133, 139 ([definePrepTasks]); 168, 172, 176,
      198 ([defineConfig]); 316 ([search]); 395, 406, 410 ([importJSON]);
    - [InvalidState]: 165 ([defineConfig]); 236, 241 ([addDoc]); 313
      ([search]);
    - [DuplicateId]: 247; [MissingField]: 254 ([addDoc]);
    - [InsufficientData]: 270 ([consolidate]).
    The last two are exceptions raised by the runtime itself, not by a
    throw statement: calling or reading a property of [undefined], and
    [JSON.parse] on a malformed text. *)
Inductive error : Type :=
| InvalidArgument
| InvalidState
| DuplicateId
| MissingField
| InsufficientData
| TypeError
| SyntaxError.

Inductive result (A : Type) : Type :=
| Return (a : A)
| Throw (e : error).

Arguments Return {A} _.
Arguments Throw {A} _.

Definition documented (e : error) : bool :=
  match e with
  | TypeError | SyntaxError => false
  | _ => true
  end.

(** ** The data of the engine *)

(** What flows through a pipeline of preparatory tasks: the raw text, or a
    list of tokens. *)
Inductive pval : Type :=
| PText (s : string)
| PTokens (l : list string).

Definition task : Type := pval -> pval.

(** [tkns.length] and [tkns[ i ]]: a string is indexed by character (here
    the 8-bit characters of [string]; every character is a token when no
    task is defined). *)
Definition chars (s : string) : list string :=
  map (fun c => String c EmptyString) (list_ascii_of_string s).

Definition tokens_of (v : pval) : list string :=
  match v with
  | PText s => chars s
  | PTokens l => l
  end.

(** [flds[ field ]]: the tasks of a field and their count. *)
Record fldEntry : Type := mkFld {
  fld_pTasks : list task;
  fld_pTaskCount : nat
}.

(** [documents[ id ]]. *)
Record document : Type := mkDoc {
  freq : props jsnum;
  doc_length : jsnum
}.

(** [invertedIdx[ t ]]: the array of ids; or, on an imported index, a member
    function of [Object.prototype] that [invertedIdx[ t ] || []] has turned
    into an own property. *)
Inductive posting : Type :=
| Ids (l : list string)
| BuiltinFn (name : string).

Record Params : Type := mkParams {
  k1 : jsnum;
  b : jsnum;
  k : jsnum
}.

Record Config : Type := mkConfig {
  fldWeights : props jsnum;
  bm25Params : Params
}.

Record engine : Type := mkEngine {
  pTasks : list task;
  pTaskCount : option nat;
  flds : props fldEntry;
  documents : object document;
  invertedIdx : object posting;
  idf : props float;
  learned : bool;
  consolidated : bool;
  totalDocs : Z;
  totalCorpusLength : jsnum;
  avgCorpusLength : float;
  config : option Config
}.

(** The state of a fresh [bm25fIMS()]. *)
Definition init : engine :=
  {| pTasks := []; pTaskCount := None; flds := [];
     documents := empty_object; invertedIdx := empty_object; idf := [];
     learned := false; consolidated := false;
     totalDocs := 0; totalCorpusLength := Num 0; avgCorpusLength := 0%float;
     config := None |}.

(** Assignments to the closure variables. *)
Definition set_pipeline (st : engine) (ts : list task) (n : option nat) : engine :=
  {| pTasks := ts; pTaskCount := n; flds := flds st;
     documents := documents st; invertedIdx := invertedIdx st; idf := idf st;
     learned := learned st; consolidated := consolidated st;
     totalDocs := totalDocs st; totalCorpusLength := totalCorpusLength st;
     avgCorpusLength := avgCorpusLength st; config := config st |}.

Definition set_flds (st : engine) (f : props fldEntry) : engine :=
  {| pTasks := pTasks st; pTaskCount := pTaskCount st; flds := f;
     documents := documents st; invertedIdx := invertedIdx st; idf := idf st;
     learned := learned st; consolidated := consolidated st;
     totalDocs := totalDocs st; totalCorpusLength := totalCorpusLength st;
     avgCorpusLength := avgCorpusLength st; config := config st |}.

Definition set_documents (st : engine) (d : object document) : engine :=
  {| pTasks := pTasks st; pTaskCount := pTaskCount st; flds := flds st;
     documents := d; invertedIdx := invertedIdx st; idf := idf st;
     learned := learned st; consolidated := consolidated st;
     totalDocs := totalDocs st; totalCorpusLength := totalCorpusLength st;
     avgCorpusLength := avgCorpusLength st; config := config st |}.

Definition set_invertedIdx (st : engine) (i : object posting) : engine :=
  {| pTasks := pTasks st; pTaskCount := pTaskCount st; flds := flds st;
     documents := documents st; invertedIdx := i; idf := idf st;
     learned := learned st; consolidated := consolidated st;
     totalDocs := totalDocs st; totalCorpusLength := totalCorpusLength st;
     avgCorpusLength := avgCorpusLength st; config := config st |}.

Definition set_idf (st : engine) (i : props float) : engine :=
  {| pTasks := pTasks st; pTaskCount := pTaskCount st; flds := flds st;
     documents := documents st; invertedIdx := invertedIdx st; idf := i;
     learned := learned st; consolidated := consolidated st;
     totalDocs := totalDocs st; totalCorpusLength := totalCorpusLength st;
     avgCorpusLength := avgCorpusLength st; config := config st |}.

Definition set_learned (st : engine) (v : bool) : engine :=
  {| pTasks := pTasks st; pTaskCount := pTaskCount st; flds := flds st;
     documents := documents st; invertedIdx := invertedIdx st; idf := idf st;
     learned := v; consolidated := consolidated st;
     totalDocs := totalDocs st; totalCorpusLength := totalCorpusLength st;
     avgCorpusLength := avgCorpusLength st; config := config st |}.

Definition set_consolidated (st : engine) (v : bool) : engine :=
  {| pTasks := pTasks st; pTaskCount := pTaskCount st; flds := flds st;
     documents := documents st; invertedIdx := invertedIdx st; idf := idf st;
     learned := learned st; consolidated := v;
     totalDocs := totalDocs st; totalCorpusLength := totalCorpusLength st;
     avgCorpusLength := avgCorpusLength st; config := config st |}.

Definition set_totalDocs (st : engine) (n : Z) : engine :=
  {| pTasks := pTasks st; pTaskCount := pTaskCount st; flds := flds st;
     documents := documents st; invertedIdx := invertedIdx st; idf := idf st;
     learned := learned st; consolidated := consolidated st;
     totalDocs := n; totalCorpusLength := totalCorpusLength st;
     avgCorpusLength := avgCorpusLength st; config := config st |}.

Definition set_totalCorpusLength (st : engine) (x : jsnum) : engine :=
  {| pTasks := pTasks st; pTaskCount := pTaskCount st; flds := flds st;
     documents := documents st; invertedIdx := invertedIdx st; idf := idf st;
     learned := learned st; consolidated := consolidated st;
     totalDocs := totalDocs st; totalCorpusLength := x;
     avgCorpusLength := avgCorpusLength st; config := config st |}.

Definition set_avgCorpusLength (st : engine) (x : float) : engine :=
  {| pTasks := pTasks st; pTaskCount := pTaskCount st; flds := flds st;
     documents := documents st; invertedIdx := invertedIdx st; idf := idf st;
     learned := learned st; consolidated := consolidated st;
     totalDocs := totalDocs st; totalCorpusLength := totalCorpusLength st;
     avgCorpusLength := x; config := config st |}.

Definition set_config (st : engine) (c : option Config) : engine :=
  {| pTasks := pTasks st; pTaskCount := pTaskCount st; flds := flds st;
     documents := documents st; invertedIdx := invertedIdx st; idf := idf st;
     learned := learned st; consolidated := consolidated st;
     totalDocs := totalDocs st; totalCorpusLength := totalCorpusLength st;
     avgCorpusLength := avgCorpusLength st; config := c |}.

(** ** Private functions *)

(** The loop of [prepareInput]: [ptc] iterations from index [i], each
    calling [pt[ i ]]; calling a missing element is a [TypeError]. *)
Fixpoint run_tasks (pt : list task) (i ptc : nat) (processedInput : pval)
  : result pval :=
  match ptc with
  | O => Return processedInput
  | S n =>
      match nth_error pt i with
      | Some f => run_tasks pt (S i) n (f processedInput)
      | None => Throw TypeError
      end
  end.

(** [( flds[ field ] && flds[ field ].pTasks ) || pTasks]: an array is
    truthy, even an empty one. *)
Definition tasks_for (st : engine) (field : string) : list task :=
  match lookup field (flds st) with
  | Some e => fld_pTasks e
  | None => pTasks st
  end.

(** [( flds[ field ] && flds[ field ].pTaskCount ) || pTaskCount]: a count
    of 0 is falsy and gives way to the default count, which is [undefined]
    until default tasks are defined. *)
Definition count_for (st : engine) (field : string) : option nat :=
  match lookup field (flds st) with
  | Some e =>
      match fld_pTaskCount e with
      | O => pTaskCount st
      | S n => Some (S n)
      end
  | None => pTaskCount st
  end.

(** [i < ptc] is false for every [i] when [ptc] is [undefined]. *)
Definition iterations (ptc : option nat) : nat :=
  match ptc with
  | Some n => n
  | None => O
  end.

Definition prepareInput (st : engine) (input : pval) (field : string)
  : result pval :=
  run_tasks (tasks_for st field) 0 (iterations (count_for st field)) input.

(** One iteration of the loop of [updateFreq] on token [t]: the document's
    [freq] object and the inverted index before and after. *)
Definition index_token (id : string) (weight : jsnum) (t : string)
  (fr : props jsnum) (idx : object posting)
  : props jsnum * object posting * result unit :=
  match lookup t fr with
  | None =>
      let fr' := assign t weight fr in
      match get idx t with
      | Undefined => (fr', put idx t (Ids [id]), Return tt)
      | Own (Ids l) => (fr', put idx t (Ids (l ++ [id])), Return tt)
      | Own (BuiltinFn f) => (fr', idx, Throw TypeError)
      | Inherited f =>
          (* the inherited value becomes an own property, except through
             the [__proto__] setter; it has no [push] *)
          if String.eqb f "__proto__" then (fr', idx, Throw TypeError)
          else (fr', put idx t (BuiltinFn f), Throw TypeError)
      end
  | Some old =>
      (assign t (Num (ToNumber old + ToNumber weight)%float) fr, idx, Return tt)
  end.

Fixpoint index_tokens (id : string) (weight : jsnum) (tkns : list string)
  (fr : props jsnum) (idx : object posting)
  : props jsnum * object posting * result unit :=
  match tkns with
  | [] => (fr, idx, Return tt)
  | t :: rest =>
      match index_token id weight t fr idx with
      | (fr', idx', Return _) => index_tokens id weight rest fr' idx'
      | (fr', idx', Throw e) => (fr', idx', Throw e)
      end
  end.

(** [updateFreq( id, text, weight, freq, field )]: the [freq] object (an
    alias of [documents[ id ].freq]) and [invertedIdx] are updated in place;
    the value returned is the weighted length. *)
Definition updateFreq (st : engine) (id : string) (text : pval)
  (weight : jsnum) (fr : props jsnum) (field : string)
  : props jsnum * object posting * result float :=
  match prepareInput st text field with
  | Throw e => (fr, invertedIdx st, Throw e)
  | Return tkns =>
      match index_tokens id weight (tokens_of tkns) fr (invertedIdx st) with
      | (fr', idx', Return _) =>
          (fr', idx',
           Return (float_of_nat (List.length (tokens_of tkns))
                   * Math_abs (ToNumber weight))%float)
      | (fr', idx', Throw e) => (fr', idx', Throw e)
      end
  end.

(** ** Exposed functions *)

(** *** definePrepTasks *)

(** The [tasks] argument: not an array, or an array whose elements are
    functions ([Some]) or something else ([None]). *)
Inductive tasks_arg : Type :=
| NotAnArray
| TaskArray (l : list (option task)).

(** The [field] argument: [undefined] or [null], a string, or another type. *)
Inductive field_arg : Type :=
| NoField
| FieldName (s : string)
| NotAString.

Fixpoint all_functions (l : list (option task)) : option (list task) :=
  match l with
  | [] => Some []
  | Some f :: r =>
      match all_functions r with
      | Some fs => Some (f :: fs)
      | None => None
      end
  | None :: _ => None
  end.

Definition definePrepTasks (st : engine) (tasks : tasks_arg) (field : field_arg)
  : engine * result nat :=
  match tasks with
  | NotAnArray => (st, Throw InvalidArgument)
  | TaskArray l =>
      match all_functions l with
      | None => (st, Throw InvalidArgument)
      | Some fs =>
          match field with
          | NoField =>
              (set_pipeline st fs (Some (List.length fs)),
               Return (List.length fs))
          | NotAString => (st, Throw InvalidArgument)
          | FieldName f =>
              (set_flds st (assign f (mkFld fs (List.length fs)) (flds st)),
               Return (List.length fs))
          end
      end
  end.

(** *** defineConfig *)

(** A weight or parameter as the caller supplies it.  [isNaN] and unary [+]
    see their argument through [ToNumber], so a value of another type is
    represented by that image (NaN for a non-numeric string or an object). *)
Inductive arg : Type :=
| ArgUndefined
| ArgNull
| ArgNumber (f : float).

Definition isNaN (a : arg) : bool :=
  match a with
  | ArgUndefined => true
  | ArgNull => false
  | ArgNumber f => PrimFloat.is_nan f
  end.

(** [+a]. *)
Definition plus (a : arg) : float :=
  match a with
  | ArgUndefined => PrimFloat.nan
  | ArgNull => 0%float
  | ArgNumber f => f
  end.

Record params_arg : Type := mkParamsArg {
  arg_k1 : arg;
  arg_b : arg;
  arg_k : arg
}.

(** [cfg]: not an object, or an object whose [fldWeights] and [bm25Params]
    are objects ([Some]) or not ([None]). *)
Inductive cfg_arg : Type :=
| CfgNotObject
| CfgObject (cfg_fldWeights : option (props arg))
            (cfg_bm25Params : option params_arg).

Definition defaultParams : Params :=
  {| k1 := Num 1.2%float; b := Num 0.75%float; k := Num 1%float |}.

(** The ternaries that read [cfg.bm25Params]. *)
Definition param_or (a : arg) (default : float) : jsnum :=
  match a with
  | ArgNull | ArgUndefined => Num default
  | ArgNumber f => if PrimFloat.is_nan f then Num default else Num f
  end.

Definition read_params (p : option params_arg) : Params :=
  match p with
  | None => defaultParams
  | Some a =>
      {| k1 := param_or (arg_k1 a) 1.2%float;
         b := param_or (arg_b a) 0.75%float;
         k := param_or (arg_k a) 1%float |}
  end.

(** The loop over [cfg.fldWeights]; [acc] is [config.fldWeights] so far.
    On a bad weight the fields already copied stay in [config]. *)
Fixpoint copy_weights (ws : props arg) (acc : props jsnum)
  : props jsnum * result unit :=
  match ws with
  | [] => (acc, Return tt)
  | (field, w) :: rest =>
      match w with
      | ArgNull => (acc, Throw InvalidArgument)
      | _ =>
          if isNaN w then (acc, Throw InvalidArgument)
          else copy_weights rest (assign field (Num (plus w)) acc)
      end
  end.

Definition defineConfig (st : engine) (cfg : cfg_arg) : engine * result bool :=
  if learned st then (st, Throw InvalidState)
  else
    match cfg with
    | CfgNotObject => (st, Throw InvalidArgument)
    | CfgObject None _ => (st, Throw InvalidArgument)
    | CfgObject (Some []) _ => (st, Throw InvalidArgument)
    | CfgObject (Some ws) ps =>
        match copy_weights ws [] with
        | (acc, Throw e) =>
            (set_config st (Some (mkConfig acc defaultParams)), Throw e)
        | (acc, Return _) =>
            (set_config st (Some (mkConfig acc (read_params ps))), Return true)
        end
    end.

(** *** addDoc *)

(** [documents[ id ].length += length], on the document just created. *)
Definition add_length (d : document) (len : float) : document :=
  mkDoc (freq d) (Num (ToNumber (doc_length d) + len)%float).

(** The loop [for ( var field in fldWeights )] of [addDoc]. *)
Fixpoint addDoc_fields (ws : props jsnum) (doc : props string) (id : string)
  (st : engine) : engine * result unit :=
  match ws with
  | [] => (st, Return tt)
  | (field, weight) :: rest =>
      match lookup field doc with
      | None => (st, Throw MissingField)
      | Some text =>
          match lookup id (own (documents st)) with
          | None => (st, Throw TypeError)
          | Some d =>
              match updateFreq st id (PText text) weight (freq d) field with
              | (fr, idx, Throw e) =>
                  (set_invertedIdx
                     (set_documents st
                        (put (documents st) id (mkDoc fr (doc_length d))))
                     idx,
                   Throw e)
              | (fr, idx, Return len) =>
                  let st1 :=
                    set_invertedIdx
                      (set_documents st
                         (put (documents st) id
                            (add_length (mkDoc fr (doc_length d)) len)))
                      idx in
                  let st2 :=
                    set_totalCorpusLength st1
                      (Num (ToNumber (totalCorpusLength st1) + len)%float) in
                  addDoc_fields rest doc id st2
              end
          end
      end
  end.

Definition addDoc (st : engine) (doc : props string) (id : string)
  : engine * result Z :=
  match config st with
  | None => (st, Throw InvalidState)
  | Some cfg =>
      if consolidated st then (st, Throw InvalidState)
      else
        let st1 := set_learned st true in
        match get (documents st1) id with
        | Own _ | Inherited _ => (st1, Throw DuplicateId)
        | Undefined =>
            let st2 :=
              set_documents st1 (put (documents st1) id (mkDoc [] (Num 0))) in
            match addDoc_fields (fldWeights cfg) doc id st2 with
            | (st3, Throw e) => (st3, Throw e)
            | (st3, Return _) =>
                let st4 := set_totalDocs st3 (totalDocs st3 + 1) in
                (st4, Return (totalDocs st4))
            end
        end
  end.

(** *** The helpers of wink-helpers and of the runtime used below *)

(** Modelled from the spec: [helpers.object.table] of the wink-helpers
    package, which is not part of this repository: the [[ key, value ]] pairs
    of an object, in the order [for..in] visits its own properties. *)
Definition table {A : Type} (o : props A) : list (string * A) := o.

(** Modelled from the spec: [helpers.array.descendingOnValue] of the
    wink-helpers package: the comparator that puts the pair with the larger
    value first ("sort descending by score"); 1 when [a] goes after [b], 0
    when the values are equal, -1 otherwise. *)
Definition descendingOnValue (x y : string * float) : Z :=
  if (snd x <? snd y)%float then 1
  else if (snd x =? snd y)%float then 0
  else -1.

(** [Array.prototype.sort( comparefn )], as a stable insertion sort: an
    element moves behind those the comparator orders strictly before it. *)
Fixpoint sort_insert {A : Type} (comparefn : A -> A -> Z) (x : A) (l : list A)
  : list A :=
  match l with
  | [] => [x]
  | y :: r =>
      if 0 <? comparefn x y then y :: sort_insert comparefn x r
      else x :: y :: r
  end.

Definition sort {A : Type} (comparefn : A -> A -> Z) (l : list A) : list A :=
  fold_right (sort_insert comparefn) [] l.

(** [a.slice( 0, n )] for an integer [n]. *)
Definition slice0 {A : Type} (n : Z) (l : list A) : list A :=
  firstn (Z.to_nat n) l.

(** ** Snapshots *)

(** [JSON.stringify] writes a finite number so that [JSON.parse] reads the
    same double back, except that -0 is written ["0"]; NaN and the infinities
    are written [null]. *)
Definition json_num (v : jsnum) : jsnum :=
  match v with
  | Num f =>
      if PrimFloat.is_finite f
      then (if PrimFloat.is_zero f then Num 0%float else Num f)
      else NullNum
  | NullNum => NullNum
  end.

Definition json_nums (o : props jsnum) : props jsnum :=
  map (fun kv => (fst kv, json_num (snd kv))) o.

Record docStats : Type := mkStats {
  stats_totalCorpusLength : jsnum;
  stats_totalDocs : Z
}.

(** An element of the parsed array: something [helpers.object.isObject]
    rejects ([null], a number, a string, an array), or a plain object. *)
Inductive element (A : Type) : Type :=
| NotObject
| IsObject (a : A).

Arguments NotObject {A}.
Arguments IsObject {A} _.

(** A JSON text, represented by what [JSON.parse] makes of it: a syntax
    error, a value that is not an array, an array whose length is not 4, or
    an array of four elements.  The four elements of a snapshot have the
    shapes [exportJSON] writes. *)
Inductive json : Type :=
| Malformed
| NotArray
| ArrayNot4
| ArrayOf4 (config' : element Config) (docStats' : element docStats)
           (documents' : element (props document))
           (invertedIdx' : element (props (list string))).

(** The argument of [importJSON]: falsy (the empty string, [null],
    [undefined]) or a text. *)
Inductive blob : Type :=
| Falsy
| Text (j : json).

Definition isObject {A : Type} (e : element A) : bool :=
  match e with
  | NotObject => false
  | IsObject _ => true
  end.

(** [text] as [search] receives it: a string or a value of another type. *)
Inductive text_arg : Type :=
| NotText
| String_ (s : string).

Section Engine.

(** [Math.log]. *)
Variable Math_log : float -> float.

(** *** consolidate *)

Definition normalizationFactor (b len avg : float) : float :=
  ((1 - b) + (b * (len / avg)))%float.

(** The right-hand side of the assignment to [documents[ id ].freq[ t ]]. *)
Definition saturate (k1 normalizationFactor freq : float) : float :=
  (Math_sign freq
   * Math_abs ((freq * (k1 + 1)) / ((k1 * normalizationFactor) + freq)))%float.

(** One iteration of [for ( t in documents[ id ].freq )]. *)
Definition consolidate_term (k1 nf : float) (fr : props jsnum) (t : string)
  : props jsnum :=
  match lookup t fr with
  | Some f => assign t (Num (saturate k1 nf (ToNumber f))) fr
  | None => fr
  end.

(** One iteration of [for ( id in documents )]. *)
Definition consolidate_doc (b k1 avg : float) (docs : props document)
  (id : string) : props document :=
  match lookup id docs with
  | Some d =>
      let nf := normalizationFactor b (ToNumber (doc_length d)) avg in
      assign id
        (mkDoc (fold_left (consolidate_term k1 nf) (keys (freq d)) (freq d))
               (doc_length d))
        docs
  | None => docs
  end.

(** [invertedIdx[ t ].length]. *)
Definition posting_length (p : posting) : nat :=
  match p with
  | Ids l => List.length l
  | BuiltinFn f =>
      match lookup f ObjectPrototype with
      | Some n => n
      | None => O
      end
  end.

(** The right-hand side of the assignment to [idf[ t ]]. *)
Definition idf_of (totalDocs : Z) (n : nat) (k : float) : float :=
  Math_log ((float_of_Z (totalDocs - Z.of_nat n) / float_of_Z totalDocs) + k)%float.

(** One iteration of [for ( t in invertedIdx )]. *)
Definition consolidate_idf (totalDocs : Z) (k : float) (idx : props posting)
  (acc : props float) (t : string) : props float :=
  match lookup t idx with
  | Some p => assign t (idf_of totalDocs (posting_length p) k) acc
  | None => acc
  end.

Definition consolidate (st : engine) : engine * result bool :=
  if totalDocs st <? 3 then (st, Throw InsufficientData)
  else
    match config st with
    | None => (st, Throw TypeError)
    | Some cfg =>
        let b := ToNumber (b (bm25Params cfg)) in
        let k1 := ToNumber (k1 (bm25Params cfg)) in
        let k := ToNumber (k (bm25Params cfg)) in
        let avg :=
          (ToNumber (totalCorpusLength st) / float_of_Z (totalDocs st))%float in
        let st1 := set_avgCorpusLength st avg in
        let docs :=
          fold_left (consolidate_doc b k1 avg)
            (keys (own (documents st1))) (own (documents st1)) in
        let st2 := set_documents st1 (mkObject (inherits (documents st1)) docs) in
        let idf' :=
          fold_left (consolidate_idf (totalDocs st2) k (own (invertedIdx st2)))
            (keys (own (invertedIdx st2))) (idf st2) in
        let st3 := set_idf st2 idf' in
        (set_consolidated st3 true, Return true)
    end.

(** *** search *)

(** The ids the inner loop of [search] visits for [ids = invertedIdx[ t ]]:
    none when it is [undefined]; a function found in place of an array has a
    [length] and [undefined] elements, which index [documents] and [results]
    under the key ["undefined"]; the prototype itself has no [length]. *)
Definition visited (idx : object posting) (t : string) : list string :=
  match get idx t with
  | Undefined => []
  | Own (Ids l) => l
  | Own (BuiltinFn f) => repeat "undefined" (posting_length (BuiltinFn f))
  | Inherited f => repeat "undefined" (posting_length (BuiltinFn f))
  end.

(** [documents[ id ].freq[ t ] * idf[ t ]]; reading [.freq] of something
    that is not a document is a [TypeError]. *)
Definition term_score (st : engine) (id t : string) : result float :=
  match get (documents st) id with
  | Own d =>
      let f := match lookup t (freq d) with
               | Some v => ToNumber v
               | None => PrimFloat.nan
               end in
      let i := match lookup t (idf st) with
               | Some x => x
               | None => PrimFloat.nan
               end in
      Return (f * i)%float
  | _ => Throw TypeError
  end.

(** The inner loop, over the ids of one token. *)
Fixpoint score_ids (st : engine) (t : string) (ids : list string)
  (results : props float) : result (props float) :=
  match ids with
  | [] => Return results
  | id :: rest =>
      match term_score st id t with
      | Throw e => Throw e
      | Return s =>
          let prev := match lookup id results with
                      | Some x => or_zero x
                      | None => 0%float
                      end in
          score_ids st t rest (assign id (s + prev)%float results)
      end
  end.

(** The outer loop, over the tokens of the prepared text. *)
Fixpoint score_tokens (st : engine) (tkns : list string)
  (results : props float) : result (props float) :=
  match tkns with
  | [] => Return results
  | t :: rest =>
      match score_ids st t (visited (invertedIdx st) t) results with
      | Throw e => Throw e
      | Return results' => score_tokens st rest results'
      end
  end.

(** [Math.max( ( limit || 10 ), 1 )]; an absent limit is [None]. *)
Definition effective_limit (limit : option Z) : Z :=
  Z.max (match limit with
         | None => 10
         | Some 0 => 10
         | Some n => n
         end) 1.

Definition search (st : engine) (text : text_arg) (limit : option Z)
  : engine * result (list (string * float)) :=
  if negb (consolidated st) then (st, Throw InvalidState)
  else
    match text with
    | NotText => (st, Throw InvalidArgument)
    | String_ s =>
        match prepareInput st (PText s) "search" with
        | Throw e => (st, Throw e)
        | Return tkns =>
            match score_tokens st (tokens_of tkns) [] with
            | Throw e => (st, Throw e)
            | Return results =>
                (st, Return (slice0 (effective_limit limit)
                               (sort descendingOnValue (table results))))
            end
        end
    end.

(** *** reset *)

Definition reset (st : engine) : engine * result bool :=
  ({| pTasks := pTasks st; pTaskCount := pTaskCount st; flds := flds st;
      documents := empty_object; invertedIdx := empty_object; idf := [];
      learned := false; consolidated := false;
      totalDocs := 0; totalCorpusLength := Num 0; avgCorpusLength := 0%float;
      config := None |}, Return true).

(** *** exportJSON *)

Definition json_config (c : Config) : Config :=
  mkConfig (json_nums (fldWeights c))
    (mkParams (json_num (k1 (bm25Params c))) (json_num (b (bm25Params c)))
       (json_num (k (bm25Params c)))).

Definition json_document (d : document) : document :=
  mkDoc (json_nums (freq d)) (json_num (doc_length d)).

(** A property whose value is a function is left out by [JSON.stringify]. *)
Fixpoint json_index (idx : props posting) : props (list string) :=
  match idx with
  | [] => []
  | (t, Ids l) :: r => (t, l) :: json_index r
  | (_, BuiltinFn _) :: r => json_index r
  end.

(** The text [JSON.stringify( [ config, docStats, documents, invertedIdx ] )];
    a [null] config is written [null]. *)
Definition exportJSON (st : engine) : engine * result json :=
  (st,
   Return
     (ArrayOf4
        (match config st with
         | None => NotObject
         | Some c => IsObject (json_config c)
         end)
        (IsObject (mkStats (json_num (totalCorpusLength st)) (totalDocs st)))
        (IsObject (map (fun kv => (fst kv, json_document (snd kv)))
                     (own (documents st))))
        (IsObject (json_index (own (invertedIdx st)))))).

(** *** importJSON *)

Definition importJSON (st : engine) (input : blob) : engine * result bool :=
  match input with
  | Falsy => (st, Throw InvalidArgument)
  | Text Malformed => (st, Throw SyntaxError)
  | Text NotArray => (st, Throw InvalidArgument)
  | Text ArrayNot4 => (st, Throw InvalidArgument)
  | Text (ArrayOf4 (IsObject c) (IsObject s) (IsObject d) (IsObject i)) =>
      let st0 := fst (reset st) in
      ({| pTasks := pTasks st0; pTaskCount := pTaskCount st0; flds := flds st0;
          documents := mkObject true d;
          invertedIdx := mkObject true (map (fun kv => (fst kv, Ids (snd kv))) i);
          idf := idf st0;
          learned := true; consolidated := consolidated st0;
          totalDocs := stats_totalDocs s;
          totalCorpusLength := stats_totalCorpusLength s;
          avgCorpusLength := avgCorpusLength st0;
          config := Some c |}, Return true)
  | Text (ArrayOf4 _ _ _ _) => (st, Throw InvalidArgument)
  end.

(** ** Sequences of calls *)

Inductive call : Type :=
| DefinePrepTasks (tasks : tasks_arg) (field : field_arg)
| DefineConfig (cfg : cfg_arg)
| AddDoc (doc : props string) (id : string)
| Consolidate
| Search (text : text_arg) (limit : option Z)
| Reset
| ExportJSON
| ImportJSON (input : blob).

Inductive value : Type :=
| VCount (n : nat)
| VBool (v : bool)
| VTotal (n : Z)
| VResults (r : list (string * float))
| VJSON (j : json).

Definition lift {A : Type} (f : A -> value) (r : engine * result A)
  : engine * result value :=
  (fst r, match snd r with
          | Return a => Return (f a)
          | Throw e => Throw e
          end).

Definition step (st : engine) (c : call) : engine * result value :=
  match c with
  | DefinePrepTasks tasks field => lift VCount (definePrepTasks st tasks field)
  | DefineConfig cfg => lift VBool (defineConfig st cfg)
  | AddDoc doc id => lift VTotal (addDoc st doc id)
  | Consolidate => lift VBool (consolidate st)
  | Search text limit => lift VResults (search st text limit)
  | Reset => lift VBool (reset st)
  | ExportJSON => lift VJSON (exportJSON st)
  | ImportJSON input => lift VBool (importJSON st input)
  end.

Definition run (st : engine) (cs : list call) : engine :=
  fold_left (fun s c => fst (step s c)) cs st.

End Engine.

(** * The vocabulary of the properties *)

(** ** Signs and order of doubles *)

(** [has_sign s x]: [x] is NaN or carries the sign bit [s]. *)
Definition has_sign (s : bool) (x : spec_float) : Prop :=
  match x with
  | S754_nan => True
  | S754_zero s' | S754_infinity s' | S754_finite s' _ _ => s' = s
  end.


(** ** Well-formed calls *)

(** No string occurs twice. *)
Fixpoint distinct (l : list string) : bool :=
  match l with
  | [] => true
  | x :: r => negb (existsb (String.eqb x) r) && distinct r
  end.

(** [JSON.parse] never makes an object with a repeated key. *)
Definition well_formed_json (j : json) : bool :=
  match j with
  | ArrayOf4 _ _ (IsObject d) (IsObject i) =>
      distinct (keys d) && distinct (keys i)
      && forallb (fun kv => distinct (keys (freq (snd kv)))) d
  | _ => true
  end.

Definition well_formed_call (c : call) : bool :=
  match c with
  | ImportJSON (Text j) => well_formed_json j
  | _ => true
  end.

Definition no_import (c : call) : bool :=
  match c with
  | ImportJSON _ => false
  | _ => true
  end.

Definition no_consolidate (c : call) : bool :=
  match c with
  | Consolidate => false
  | _ => true
  end.

(** ** The inverted index and the document store *)

(** [mentions t d]: [t] is a key of [d.freq]. *)
Definition mentions (t : string) (d : document) : bool :=
  match lookup t (freq d) with
  | Some _ => true
  | None => false
  end.

(** The ids of the documents whose frequency map has the term [t], in the
    order the documents were added. *)
Definition containing (docs : props document) (t : string) : list string :=
  keys (filter (fun kv => mentions t (snd kv)) docs).

(** What the inverted index should hold for [t]: nothing when no document
    has the term, the list of those documents otherwise. *)
Definition posting_for (docs : props document) (t : string) : option posting :=
  match containing docs t with
  | [] => None
  | l => Some (Ids l)
  end.

(** The index agrees with the document store. *)
Definition consistent (docs : props document) (idx : object posting) : Prop :=
  inherits idx = false /\
  forall t, lookup t (own idx) = posting_for docs t.

(** The state during the field loop of [addDoc]: the document being added
    is the last of the store, and the index agrees with the store. *)
Definition adding (id : string) (st : engine) : Prop :=
  exists pre d,
    own (documents st) = pre ++ [(id, d)] /\ ~ In id (keys pre) /\
    consistent (own (documents st)) (invertedIdx st).

(** The invariant of the states reached without [importJSON]. *)
Definition IdxInv (st : engine) : Prop :=
  consistent (own (documents st)) (invertedIdx st).

(** ** Invariants of the state *)

(** The invariant of every reachable state: the keys of an object are
    distinct, the IDF table has no term the index lacks, a consolidated
    engine has at least 3 documents, and an engine without configuration
    has none. *)
Record Inv (st : engine) : Prop := mkInv {
  inv_documents : NoDup (keys (own (documents st)));
  inv_freq : forall id d,
      lookup id (own (documents st)) = Some d -> NoDup (keys (freq d));
  inv_invertedIdx : NoDup (keys (own (invertedIdx st)));
  inv_idf : forall t,
      In t (keys (idf st)) -> In t (keys (own (invertedIdx st)));
  inv_consolidated : consolidated st = true -> 3 <= totalDocs st;
  inv_config : config st = None -> totalDocs st = 0
}.

(** Documents are in the store only once learning has started. *)
Definition Started (st : engine) : Prop :=
  own (documents st) <> [] \/ inherits (documents st) = true ->
  learned st = true.

(** The counts are the lengths of the task arrays. *)
Definition Counted (st : engine) : Prop :=
  (pTaskCount st = None /\ pTasks st = []
   \/ pTaskCount st = Some (List.length (pTasks st))) /\
  forall f e, lookup f (flds st) = Some e ->
              fld_pTaskCount e = List.length (fld_pTasks e).

(** ** What consolidation and search compute *)

(** The document [consolidate] leaves in place of [d]: every frequency
    replaced by its saturated value, the length untouched. *)
Definition consolidated_document (b k1 avg : float) (d : document) : document :=
  mkDoc
    (map (fun tf =>
            (fst tf,
             Num (saturate k1
                    (normalizationFactor b (ToNumber (doc_length d)) avg)
                    (ToNumber (snd tf)))))
         (freq d))
    (doc_length d).





(** ** Reachable states *)

Section Vocabulary.

Variable Math_log : float -> float.

(** The states of an engine after a sequence of calls. *)
Definition reachable (st : engine) : Prop :=
  exists cs, forallb well_formed_call cs = true /\ st = run Math_log init cs.

(** The states reached without [importJSON]. *)
Definition built (st : engine) : Prop :=
  exists cs, forallb no_import cs = true /\ st = run Math_log init cs.

(** The state a successful [consolidate] returns, when the configuration
    is [cfg]. *)
Definition consolidated_state (st : engine) (cfg : Config) : engine :=
  let avg :=
    (ToNumber (totalCorpusLength st) / float_of_Z (totalDocs st))%float in
  {| pTasks := pTasks st; pTaskCount := pTaskCount st; flds := flds st;
     documents :=
       mkObject (inherits (documents st))
         (fold_left
            (consolidate_doc (ToNumber (b (bm25Params cfg)))
               (ToNumber (k1 (bm25Params cfg))) avg)
            (keys (own (documents st))) (own (documents st)));
     invertedIdx := invertedIdx st;
     idf :=
       fold_left
         (consolidate_idf Math_log (totalDocs st)
            (ToNumber (k (bm25Params cfg))) (own (invertedIdx st)))
         (keys (own (invertedIdx st))) (idf st);
     learned := learned st; consolidated := true;
     totalDocs := totalDocs st; totalCorpusLength := totalCorpusLength st;
     avgCorpusLength := avg; config := config st |}.

End Vocabulary.

(** ** Pipelines of tasks *)

(** The tasks of a pipeline applied one after the other. *)
Definition apply_tasks (fs : list task) (input : pval) : pval :=
  fold_left (fun v f => f v) fs input.

Definition is_definePrepTasks (c : call) : bool :=
  match c with
  | DefinePrepTasks _ _ => true
  | _ => false
  end.

(** ** Configurations *)

(** A weight [defineConfig] accepts: neither [null] nor something [isNaN]
    holds of. *)
Definition valid_weight (a : arg) : bool :=
  match a with
  | ArgNull => false
  | _ => negb (isNaN a)
  end.

(** The weights as [defineConfig] stores them. *)
Definition stored_weights (ws : props arg) : props jsnum :=
  map (fun kv => (fst kv, Num (plus (snd kv)))) ws.

(** [config.fldWeights] after the loop of [defineConfig] has copied the
    weights [ws] into [acc]. *)
Definition copied (ws : props arg) (acc : props jsnum) : props jsnum :=
  fold_left (fun a kv => assign (fst kv) (Num (plus (snd kv))) a) ws acc.

(** ** Snapshots that lose nothing *)

(** A number [JSON.stringify] writes so that [JSON.parse] reads the same
    value back: [null], or a finite double other than -0. *)
Definition plain (v : jsnum) : bool :=
  match v with
  | Num f =>
      PrimFloat.is_finite f
      && (negb (PrimFloat.is_zero f) || PrimFloat.Leibniz.eqb f 0%float)
  | NullNum => true
  end.

Definition plain_nums (o : props jsnum) : bool :=
  forallb (fun kv => plain (snd kv)) o.

Definition is_array (p : posting) : bool :=
  match p with
  | Ids _ => true
  | BuiltinFn _ => false
  end.

(** The engine has a configuration, every number of its configuration, of
    its documents and of its totals is [plain], and every entry of its
    inverted index is an array. *)
Definition writable (st : engine) : bool :=
  match config st with
  | Some c =>
      plain_nums (fldWeights c) && plain (k1 (bm25Params c))
      && plain (b (bm25Params c)) && plain (k (bm25Params c))
  | None => false
  end
  && plain (totalCorpusLength st)
  && forallb (fun kv => plain_nums (freq (snd kv))
                        && plain (doc_length (snd kv)))
       (own (documents st))
  && forallb (fun kv => is_array (snd kv)) (own (invertedIdx st)).


(** ** Counting and measuring the documents *)

(** The document counter does not exceed the number of stored documents. *)
Definition Sized (st : engine) : Prop :=
  0 <= totalDocs st <= Z.of_nat (List.length (keys (own (documents st)))).

(** A length that is not negative: NaN, or a double whose sign bit is
    clear. *)
Definition nonneg (v : jsnum) : Prop :=
  has_sign false (Prim2SF (ToNumber v)).

Definition NonNeg (st : engine) : Prop :=
  nonneg (totalCorpusLength st) /\
  forall id d, lookup id (own (documents st)) = Some d ->
               nonneg (doc_length d).

(** ** What [addDoc] stores *)

(** The tokens of every configured field of [doc], each list paired with
    the weight of its field, in the order of the configuration; or the error
    of the first field that is missing or whose pipeline fails. *)
Fixpoint prepared (st : engine) (ws : props jsnum) (doc : props string)
  : result (list (list string * jsnum)) :=
  match ws with
  | [] => Return []
  | (field, weight) :: rest =>
      match lookup field doc with
      | None => Throw MissingField
      | Some text =>
          match prepareInput st (PText text) field with
          | Throw e => Throw e
          | Return v =>
              match prepared st rest doc with
              | Return l => Return ((tokens_of v, weight) :: l)
              | Throw e => Throw e
              end
          end
      end
  end.

(** [freq[ t ]] once the occurrences of [t] among [tkns] are counted with
    the weight [w]: the first occurrence stores the weight, every other adds
    it. *)
Fixpoint tally (w : jsnum) (t : string) (tkns : list string)
  (acc : option jsnum) : option jsnum :=
  match tkns with
  | [] => acc
  | t' :: rest =>
      if String.eqb t' t
      then tally w t rest
             (Some (match acc with
                    | None => w
                    | Some old => Num (ToNumber old + ToNumber w)%float
                    end))
      else tally w t rest acc
  end.

Definition tally_fields (fs : list (list string * jsnum)) (t : string)
  (acc : option jsnum) : option jsnum :=
  fold_left (fun a f => tally (snd f) t (fst f) a) fs acc.

(** The weighted frequency of [t] over the fields. *)
Definition frequency (fs : list (list string * jsnum)) (t : string)
  : option jsnum :=
  tally_fields fs t None.

(** The number of tokens of a field times the magnitude of its weight. *)
Definition weighted_length (f : list string * jsnum) : float :=
  (float_of_nat (List.length (fst f)) * Math_abs (ToNumber (snd f)))%float.

(** [start], with the weighted lengths of the fields added in order. *)
Definition total_length (fs : list (list string * jsnum)) (start : float)
  : float :=
  fold_left (fun a f => (a + weighted_length f)%float) fs start.

(** * The scenarios *)

(** The scenarios run with this approximation of the natural logarithm in
    the place of [Math.log]: [ln x = 2 * atanh((x - 1) / (x + 1))], by the
    first 40 terms of the series.  Every theorem below holds for any
    function in that place. *)
Fixpoint atanh_terms (n : nat) (y2 power d : float) : float :=
  match n with
  | O => 0%float
  | S m => (power / d + atanh_terms m y2 (power * y2) (d + 2))%float
  end.

Definition sample_log (x : float) : float :=
  let y := ((x - 1) / (x + 1))%float in
  (2 * atanh_terms 40 (y * y) y 1)%float.

(** A preparatory task: split the text at spaces. *)
Fixpoint split_spaces (cs : list ascii) (word : string) : list string :=
  match cs with
  | [] => match word with EmptyString => [] | _ => [word] end
  | c :: r =>
      if Ascii.eqb c " "%char
      then match word with
           | EmptyString => split_spaces r EmptyString
           | _ => word :: split_spaces r EmptyString
           end
      else split_spaces r (word ++ String c EmptyString)%string
  end.

Definition tokenize : task :=
  fun v =>
    match v with
    | PText s => PTokens (split_spaces (list_ascii_of_string s) EmptyString)
    | PTokens l => PTokens l
    end.

(** [{ fldWeights: { title: 2, body: 1 } }], the tasks [[ tokenize ]] by
    default, and three documents. *)
Definition title_body : cfg_arg :=
  CfgObject (Some [("title", ArgNumber 2%float); ("body", ArgNumber 1%float)])
            None.

Definition three_docs : list call :=
  [ DefinePrepTasks (TaskArray [Some tokenize]) NoField;
    DefineConfig title_body;
    AddDoc [("title", "cat dog"); ("body", "cat")] "d1";
    AddDoc [("title", "cat bird"); ("body", "fish")] "d2";
    AddDoc [("title", "cat cow"); ("body", "cat cow")] "d3" ].

(** The engine before and after [consolidate]. *)
Definition learnt : engine := run sample_log init three_docs.

Definition ready : engine := run sample_log init (three_docs ++ [Consolidate]).



(** The snapshot of the consolidated engine, and a fresh engine that has
    imported it. *)
Definition snapshot : json :=
  match snd (exportJSON ready) with
  | Return j => j
  | Throw _ => Malformed
  end.

Definition reloaded : engine := fst (importJSON init (Text snapshot)).

(** The engine with its tasks and configuration, before any document. *)
Definition configured : engine :=
  run sample_log init
    [ DefinePrepTasks (TaskArray [Some tokenize]) NoField;
      DefineConfig title_body ].

(** A document without the configured field [body]. *)
Definition no_body : props string := [("title", "cat dog")].

(** The snapshot of the engine before consolidation, read back by the same
    engine. *)
Definition saved : json :=
  match snd (exportJSON learnt) with
  | Return j => j
  | Throw _ => Malformed
  end.

Definition restored : engine := fst (importJSON learnt (Text saved)).

(** Default tasks [[ tokenize ]], an empty task list for the field [body],
    and the configuration. *)
Definition empty_body_tasks : engine :=
  run sample_log init
    [ DefinePrepTasks (TaskArray [Some tokenize]) NoField;
      DefinePrepTasks (TaskArray []) (FieldName "body");
      DefineConfig title_body ].

(** The consolidated engine after an empty task list is defined for the
    reserved field [search]. *)
Definition empty_search_tasks : engine :=
  run sample_log ready [DefinePrepTasks (TaskArray []) (FieldName "search")].

(** A configuration whose second weight is [null]. *)
Definition null_weight : cfg_arg :=
  CfgObject (Some [("title", ArgNumber 2%float); ("body", ArgNull)]) None.

(** One field of weight -2 and the document ["ab"], every character a
    token. *)
Definition negative_weight : engine :=
  run sample_log init
    [ DefineConfig (CfgObject (Some [("body", ArgNumber (-2)%float)]) None);
      AddDoc [("body", "ab")] "d1" ].

(** A fourth document, and its tokens with the weights of their fields. *)
Definition emu_owl : props string := [("title", "emu emu"); ("body", "owl")].

Definition emu_owl_fields : list (list string * jsnum) :=
  [ (["emu"; "emu"], Num 2%float); (["owl"], Num 1%float) ].

(** * Properties *)

(** ** Own properties: lookup and assignment *)

Section Props.

Context {A : Type}.
Implicit Types (l : props A) (k : string) (v : A).

Lemma lookup_assign_same l k v : lookup k (assign k v l) = Some v.
Proof.
  induction l as [|[k' v'] r IH]; simpl.
  - now rewrite String.eqb_refl.
  - destruct (String.eqb k' k) eqn:E; simpl.
    + now rewrite String.eqb_refl.
    + now rewrite E.
Qed.

Lemma lookup_assign_other l k k' v :
  k <> k' -> lookup k' (assign k v l) = lookup k' l.
Proof.
  intros Hne. induction l as [|[k0 v0] r IH]; simpl.
  - destruct (String.eqb_spec k k'); [contradiction | reflexivity].
  - destruct (String.eqb_spec k0 k) as [->|Hk]; simpl.
    + destruct (String.eqb_spec k k'); [contradiction | reflexivity].
    + destruct (String.eqb_spec k0 k'); [reflexivity | apply IH].
Qed.

Lemma lookup_None l k : lookup k l = None <-> ~ In k (keys l).
Proof.
  induction l as [|[k' v'] r IH]; simpl.
  - tauto.
  - destruct (String.eqb_spec k' k) as [->|Hk].
    + split; [discriminate | intros H; exfalso; apply H; now left].
    + rewrite IH. split; [intros H [?|?]; tauto | tauto].
Qed.

Lemma lookup_Some_In l k v : lookup k l = Some v -> In k (keys l).
Proof.
  intros H. destruct (in_dec string_dec k (keys l)) as [|Hn]; [assumption|].
  apply lookup_None in Hn. congruence.
Qed.

Lemma In_lookup l k : In k (keys l) -> exists v, lookup k l = Some v.
Proof.
  intros H. destruct (lookup k l) as [v|] eqn:E; [now exists v|].
  apply lookup_None in E. contradiction.
Qed.

Lemma keys_assign_present l k v :
  In k (keys l) -> keys (assign k v l) = keys l.
Proof.
  induction l as [|[k' v'] r IH]; simpl; [tauto|].
  intros H. destruct (String.eqb_spec k' k) as [->|Hk]; simpl; [reflexivity|].
  f_equal. apply IH. destruct H; [contradiction | assumption].
Qed.

Lemma assign_absent l k v :
  ~ In k (keys l) -> assign k v l = l ++ [(k, v)].
Proof.
  induction l as [|[k' v'] r IH]; simpl; [reflexivity|].
  intros H. destruct (String.eqb_spec k' k) as [->|Hk].
  - exfalso. apply H. now left.
  - f_equal. apply IH. tauto.
Qed.

Lemma keys_assign_absent l k v :
  ~ In k (keys l) -> keys (assign k v l) = keys l ++ [k].
Proof.
  intros H. rewrite assign_absent by assumption.
  unfold keys. now rewrite map_app.
Qed.

Lemma In_keys_assign l k v k' :
  In k' (keys (assign k v l)) <-> k' = k \/ In k' (keys l).
Proof.
  destruct (in_dec string_dec k (keys l)) as [Hin|Hn].
  - rewrite keys_assign_present by assumption.
    split; [tauto | intros [->|?]; assumption].
  - rewrite keys_assign_absent by assumption. rewrite in_app_iff. simpl.
    split; [intros [?|[?|[]]]; auto | intros [?|?]; auto].
Qed.

Lemma NoDup_keys_assign l k v :
  NoDup (keys l) -> NoDup (keys (assign k v l)).
Proof.
  intros H. destruct (in_dec string_dec k (keys l)) as [Hin|Hn].
  - now rewrite keys_assign_present.
  - rewrite keys_assign_absent by assumption.
    apply NoDup_app; [assumption | repeat constructor; simpl; tauto |].
    intros x Hx [<-|[]]. contradiction.
Qed.

(** Assigning to the key in the middle of a list whose prefix lacks it. *)
Lemma assign_middle (pre suf : props A) k v v' :
  ~ In k (keys pre) ->
  assign k v' (pre ++ (k, v) :: suf) = pre ++ (k, v') :: suf.
Proof.
  induction pre as [|[k0 v0] r IH]; simpl; intros H.
  - now rewrite String.eqb_refl.
  - destruct (String.eqb_spec k0 k) as [->|Hk]; [exfalso; apply H; now left|].
    f_equal. apply IH. tauto.
Qed.

Lemma lookup_middle (pre suf : props A) k v :
  ~ In k (keys pre) -> lookup k (pre ++ (k, v) :: suf) = Some v.
Proof.
  induction pre as [|[k0 v0] r IH]; simpl; intros H.
  - now rewrite String.eqb_refl.
  - destruct (String.eqb_spec k0 k) as [->|Hk]; [exfalso; apply H; now left|].
    apply IH. tauto.
Qed.

(** A [for..in] loop that overwrites every property in turn is a map over
    the properties, provided the keys are distinct (as they are in any
    object). *)
Lemma for_in_overwrite (g : A -> A) l :
  NoDup (keys l) ->
  fold_left
    (fun acc k => match lookup k acc with
                  | Some v => assign k (g v) acc
                  | None => acc
                  end)
    (keys l) l
  = map (fun kv => (fst kv, g (snd kv))) l.
Proof.
  intros Hnd.
  assert (Hgen : forall suf pre,
             NoDup (keys (pre ++ suf)) ->
             fold_left
               (fun acc k => match lookup k acc with
                             | Some v => assign k (g v) acc
                             | None => acc
                             end)
               (keys suf) (map (fun kv => (fst kv, g (snd kv))) pre ++ suf)
             = map (fun kv => (fst kv, g (snd kv))) (pre ++ suf)).
  { induction suf as [|[k0 v0] suf IH]; intros pre Hn; simpl.
    - now rewrite !app_nil_r.
    - assert (Hk : ~ In k0 (keys (map (fun kv => (fst kv, g (snd kv))) pre))).
      { unfold keys in *. rewrite map_map. simpl.
        rewrite map_app in Hn. simpl in Hn.
        apply NoDup_remove_2 in Hn. intros Hin. apply Hn.
        apply in_or_app. now left. }
      rewrite lookup_middle by assumption.
      rewrite assign_middle by assumption.
      replace (map (fun kv => (fst kv, g (snd kv))) pre ++ (k0, g v0) :: suf)
        with (map (fun kv => (fst kv, g (snd kv))) (pre ++ [(k0, v0)]) ++ suf)
        by (rewrite map_app, <- app_assoc; reflexivity).
      rewrite IH by (rewrite <- app_assoc; exact Hn).
      now rewrite <- app_assoc. }
  apply (Hgen l []). exact Hnd.
Qed.

End Props.

Lemma keys_map_values {A B : Type} (g : string * A -> B) (l : props A) :
  keys (map (fun kv => (fst kv, g kv)) l) = keys l.
Proof. unfold keys. rewrite map_map. reflexivity. Qed.

Lemma lookup_map_values {A B : Type} (g : A -> B) (l : props A) k :
  lookup k (map (fun kv => (fst kv, g (snd kv))) l) = option_map g (lookup k l).
Proof.
  induction l as [|[k' v'] r IH]; simpl; [reflexivity|].
  destruct (String.eqb k' k); [reflexivity | apply IH].
Qed.

(** ** Signs of doubles *)

Lemma SFabs_sign x : has_sign false (SFabs x).
Proof. destruct x; simpl; auto. Qed.

Lemma nonneg_not_below_zero x :
  has_sign false x -> SFltb x (S754_zero false) = false.
Proof. destruct x as [s|s| |s m e]; simpl; intros H; subst; reflexivity. Qed.



Lemma Prim2SF_zero : Prim2SF 0%float = S754_zero false.
Proof. reflexivity. Qed.













(** ** Sorting *)







(** ** Reachable states and their invariants *)

(** Split a conjunction, and only a conjunction, into its parts. *)
Ltac conjs := repeat match goal with |- _ /\ _ => split end; auto.

Lemma distinct_NoDup l : distinct l = true -> NoDup l.
Proof.
  induction l as [|x r IH]; simpl; intros H; constructor.
  - apply andb_prop in H as [H _]. intros Hin.
    apply negb_true_iff in H.
    assert (existsb (String.eqb x) r = true); [|congruence].
    apply existsb_exists. exists x. split; [assumption | apply String.eqb_refl].
  - apply IH. now apply andb_prop in H as [_ H].
Qed.

Section Reachability.

Variable Math_log : float -> float.

Lemma Inv_init : Inv init.
Proof.
  constructor; simpl; try constructor; try discriminate; try tauto.
Qed.

Lemma index_token_distinct id w t fr idx fr' idx' r :
  index_token id w t fr idx = (fr', idx', r) ->
  NoDup (keys fr) -> NoDup (keys (own idx)) ->
  NoDup (keys fr') /\ NoDup (keys (own idx')) /\
  (forall t', In t' (keys (own idx)) -> In t' (keys (own idx'))).
Proof.
  unfold index_token. intros H Hf Hi.
  destruct (lookup t fr) as [old|].
  - inversion H; subst. auto using NoDup_keys_assign.
  - destruct (get idx t) as [|[l|f]|f];
      [ | | | destruct (String.eqb f "__proto__") ];
      inversion H; subst; simpl;
      repeat split; auto using NoDup_keys_assign;
      intros t' Ht'; apply In_keys_assign; auto.
Qed.

Lemma index_tokens_distinct id w tkns : forall fr idx fr' idx' r,
  index_tokens id w tkns fr idx = (fr', idx', r) ->
  NoDup (keys fr) -> NoDup (keys (own idx)) ->
  NoDup (keys fr') /\ NoDup (keys (own idx')) /\
  (forall t', In t' (keys (own idx)) -> In t' (keys (own idx'))).
Proof.
  induction tkns as [|t rest IH]; simpl; intros fr idx fr' idx' r H Hf Hi.
  - inversion H; subst. auto.
  - destruct (index_token id w t fr idx) as [[fr1 idx1] [u|e]] eqn:E;
      destruct (index_token_distinct _ _ _ _ _ _ _ _ E Hf Hi) as (Hf1 & Hi1 & Hs1).
    + destruct (IH _ _ _ _ _ H Hf1 Hi1) as (Hf2 & Hi2 & Hs2). auto.
    + inversion H; subst. auto.
Qed.

Lemma updateFreq_distinct st id text w fr field fr' idx' r :
  updateFreq st id text w fr field = (fr', idx', r) ->
  NoDup (keys fr) -> NoDup (keys (own (invertedIdx st))) ->
  NoDup (keys fr') /\ NoDup (keys (own idx')) /\
  (forall t', In t' (keys (own (invertedIdx st))) -> In t' (keys (own idx'))).
Proof.
  unfold updateFreq. intros H Hf Hi.
  destruct (prepareInput st text field) as [tkns|e].
  - destruct (index_tokens id w (tokens_of tkns) fr (invertedIdx st))
      as [[fr1 idx1] [u|e]] eqn:E;
      destruct (index_tokens_distinct _ _ _ _ _ _ _ _ E Hf Hi) as (? & ? & ?);
      inversion H; subst; auto.
  - inversion H; subst. auto.
Qed.

(** What the field loop of [addDoc] leaves alone, and what it keeps true. *)
Lemma addDoc_fields_Inv ws doc id : forall st st' r,
  addDoc_fields ws doc id st = (st', r) ->
  Inv st -> consolidated st = false -> config st <> None ->
  Inv st' /\ consolidated st' = false /\ config st' = config st /\
  totalDocs st' = totalDocs st /\ learned st' = learned st /\
  idf st' = idf st.
Proof.
  induction ws as [|[field weight] rest IH]; simpl; intros st st' r H HI Hc Hcfg.
  - inversion H; subst. conjs.
  - destruct (lookup field doc) as [text|];
      [|inversion H; subst; conjs].
    destruct (lookup id (own (documents st))) as [d|] eqn:Ed;
      [|inversion H; subst; conjs].
    assert (Hstore : forall fr idx len,
               NoDup (keys fr) -> NoDup (keys (own idx)) ->
               (forall t', In t' (keys (own (invertedIdx st))) ->
                           In t' (keys (own idx))) ->
               Inv (set_invertedIdx
                      (set_documents st (put (documents st) id (mkDoc fr len)))
                      idx)).
    { intros fr idx len Hfr Hidx Hsub.
      destruct HI. constructor; simpl; auto using NoDup_keys_assign.
      intros id' d' Hl. destruct (string_dec id id') as [<-|Hne].
      - rewrite lookup_assign_same in Hl. inversion Hl; subst. exact Hfr.
      - rewrite lookup_assign_other in Hl by assumption. eauto. }
    destruct (updateFreq st id (PText text) weight (freq d) field)
      as [[fr idx] [len|e]] eqn:E;
      destruct (updateFreq_distinct _ _ _ _ _ _ _ _ _ E
                  (inv_freq _ HI _ _ Ed) (inv_invertedIdx _ HI))
        as (Hfr & Hidx & Hsub).
    + apply IH in H; simpl; auto.
      specialize (Hstore fr idx
                    (Num (ToNumber (doc_length d) + len)%float) Hfr Hidx Hsub).
      destruct Hstore. constructor; simpl in *; auto.
    + inversion H; subst; simpl. conjs.
Qed.

Lemma addDoc_Inv st doc id : Inv st -> Inv (fst (addDoc st doc id)).
Proof.
  intros HI. unfold addDoc.
  destruct (config st) as [cfg|] eqn:Ecfg; [|exact HI].
  destruct (consolidated st) eqn:Ec; [exact HI|].
  assert (HI1 : Inv (set_learned st true)).
  { destruct HI. constructor; simpl; auto. }
  destruct (get (documents (set_learned st true)) id) as [|d|f] eqn:Eg;
    try exact HI1.
  assert (HI2 : Inv (set_documents (set_learned st true)
                       (put (documents (set_learned st true)) id
                          (mkDoc [] (Num 0))))).
  { destruct HI. constructor; simpl; auto using NoDup_keys_assign.
    intros id' d' Hl. destruct (string_dec id id') as [<-|Hne].
    - rewrite lookup_assign_same in Hl. inversion Hl; subst. constructor.
    - rewrite lookup_assign_other in Hl by assumption. eauto. }
  match goal with
  | |- context [addDoc_fields ?w ?d ?i ?s] =>
      destruct (addDoc_fields w d i s) as [st3 [u|e]] eqn:E;
      apply addDoc_fields_Inv in E; simpl; try congruence; try exact HI2
  end.
  - destruct E as (HI3 & Hc3 & Hcfg3 & _). simpl in *.
    destruct HI3. constructor; simpl; auto; congruence.
  - tauto.
Qed.

Lemma lookup_of_In {A : Type} (l : props A) k v :
  NoDup (keys l) -> In (k, v) l -> lookup k l = Some v.
Proof.
  induction l as [|[k' v'] r IH]; simpl; [tauto|].
  intros Hnd [Heq|Hin].
  - inversion Heq; subst. now rewrite String.eqb_refl.
  - inversion Hnd; subst.
    destruct (String.eqb_spec k' k) as [->|Hne]; [|auto].
    exfalso. apply H1. change (In (fst (k, v)) (map fst r)). now apply in_map.
Qed.

(** *** What [consolidate] computes *)

Lemma consolidate_freq_map k1 nf (fr : props jsnum) :
  NoDup (keys fr) ->
  fold_left (consolidate_term k1 nf) (keys fr) fr
  = map (fun tf => (fst tf, Num (saturate k1 nf (ToNumber (snd tf))))) fr.
Proof.
  intros Hnd. unfold consolidate_term.
  exact (for_in_overwrite (fun f => Num (saturate k1 nf (ToNumber f))) fr Hnd).
Qed.

Lemma consolidate_documents_map b k1 avg (docs : props document) :
  NoDup (keys docs) ->
  (forall id d, lookup id docs = Some d -> NoDup (keys (freq d))) ->
  fold_left (consolidate_doc b k1 avg) (keys docs) docs
  = map (fun kv => (fst kv, consolidated_document b k1 avg (snd kv))) docs.
Proof.
  intros Hnd Hfr. unfold consolidate_doc.
  rewrite (for_in_overwrite
             (fun d =>
                mkDoc
                  (fold_left
                     (consolidate_term k1
                        (normalizationFactor b (ToNumber (doc_length d)) avg))
                     (keys (freq d)) (freq d))
                  (doc_length d)) docs Hnd).
  apply map_ext_in. intros [id d] Hin. simpl. f_equal.
  unfold consolidated_document. f_equal.
  apply consolidate_freq_map. apply (Hfr id). now apply lookup_of_In.
Qed.

(** The loop over the inverted index: a term of the index gets its IDF,
    any other entry of the table is left as it was. *)
Lemma consolidate_idf_lookup n k (idx : props posting) t : forall ts acc,
  lookup t (fold_left (consolidate_idf Math_log n k idx) ts acc)
  = match lookup t idx with
    | Some p =>
        if existsb (String.eqb t) ts
        then Some (idf_of Math_log n (posting_length p) k)
        else lookup t acc
    | None => lookup t acc
    end.
Proof.
  induction ts as [|a ts IH]; intros acc; simpl.
  - destruct (lookup t idx); reflexivity.
  - rewrite IH. unfold consolidate_idf at 1 2.
    destruct (lookup t idx) as [p|] eqn:Et.
    + destruct (String.eqb_spec t a) as [<-|Hne]; simpl.
      * rewrite Et, lookup_assign_same.
        destruct (existsb (String.eqb t) ts); reflexivity.
      * destruct (existsb (String.eqb t) ts); [reflexivity|].
        destruct (lookup a idx); [|reflexivity].
        apply lookup_assign_other. congruence.
    + destruct (lookup a idx) eqn:Ea; [|reflexivity].
      apply lookup_assign_other. congruence.
Qed.


Lemma consolidate_fails st :
  totalDocs st < 3 -> consolidate Math_log st = (st, Throw InsufficientData).
Proof.
  intros H. unfold consolidate.
  destruct (Z.ltb_spec (totalDocs st) 3); [reflexivity | lia].
Qed.

Lemma consolidate_succeeds st cfg :
  3 <= totalDocs st -> config st = Some cfg ->
  consolidate Math_log st = (consolidated_state Math_log st cfg, Return true).
Proof.
  intros H Hc. unfold consolidate. rewrite Hc.
  destruct (Z.ltb_spec (totalDocs st) 3); [lia | reflexivity].
Qed.

Lemma consolidate_Inv st : Inv st -> Inv (fst (consolidate Math_log st)).
Proof.
  intros HI. destruct (Z.lt_ge_cases (totalDocs st) 3) as [Hlt|Hge].
  - now rewrite consolidate_fails.
  - destruct (config st) as [cfg|] eqn:Ec.
    + rewrite (consolidate_succeeds _ cfg) by assumption. simpl.
      destruct HI as [Hd Hf Hi Hidf Hcons Hcfg].
      constructor; simpl; auto; try congruence.
      * rewrite consolidate_documents_map by assumption.
        now rewrite (keys_map_values (fun kv => consolidated_document _ _ _ (snd kv))).
      * intros id d. rewrite consolidate_documents_map by assumption.
        rewrite (lookup_map_values (consolidated_document _ _ _)).
        destruct (lookup id (own (documents st))) as [d0|] eqn:El;
          simpl; [|discriminate].
        intros Hd'. inversion Hd'; subst. simpl.
        rewrite (keys_map_values (fun tf => Num _)). eauto.
      * intros t Ht. apply In_lookup in Ht as [v Hv].
        rewrite consolidate_idf_lookup in Hv.
        destruct (lookup t (own (invertedIdx st))) eqn:El.
        -- now apply lookup_Some_In in El.
        -- apply Hidf. now apply lookup_Some_In in Hv.
    + unfold consolidate. rewrite Ec.
      destruct (totalDocs st <? 3); exact HI.
Qed.

Lemma search_state st text limit : fst (search st text limit) = st.
Proof.
  unfold search. destruct (negb (consolidated st)); [reflexivity|].
  destruct text as [|s]; [reflexivity|].
  destruct (prepareInput st (PText s) "search") as [tkns|e]; [|reflexivity].
  destruct (score_tokens st (tokens_of tkns) []); reflexivity.
Qed.

Lemma definePrepTasks_Inv st tasks field :
  Inv st -> Inv (fst (definePrepTasks st tasks field)).
Proof.
  intros HI. unfold definePrepTasks.
  destruct tasks as [|l]; [exact HI|].
  destruct (all_functions l) as [fs|]; [|exact HI].
  destruct field as [|f|]; try exact HI;
    destruct HI; constructor; simpl; auto.
Qed.

Lemma defineConfig_Inv st cfg : Inv st -> Inv (fst (defineConfig st cfg)).
Proof.
  intros HI. unfold defineConfig.
  destruct (learned st); [exact HI|].
  destruct cfg as [|[ws|] ps]; try exact HI.
  destruct ws as [|w ws]; [exact HI|].
  destruct (copy_weights (w :: ws) []) as [acc [u|e]];
    destruct HI; constructor; simpl; auto; discriminate.
Qed.

Lemma importJSON_Inv st input :
  well_formed_call (ImportJSON input) = true ->
  Inv st -> Inv (fst (importJSON st input)).
Proof.
  intros Hwf HI. destruct input as [|[| | |[|c] [|s] [|d] [|i]]]; try exact HI.
  simpl in Hwf. apply andb_prop in Hwf as [Hwf Hfr].
  apply andb_prop in Hwf as [Hd Hi].
  constructor; simpl; try tauto; try discriminate.
  - now apply distinct_NoDup.
  - intros id doc Hl. rewrite forallb_forall in Hfr.
    apply distinct_NoDup. apply (Hfr (id, doc)).
    clear - Hl. induction d as [|[k' v'] r IH]; simpl in *; [discriminate|].
    destruct (String.eqb_spec k' id) as [->|Hne]; [|auto].
    inversion Hl; subst. now left.
  - rewrite (keys_map_values (fun kv => Ids (snd kv))). now apply distinct_NoDup.
Qed.

Lemma step_Inv st c :
  well_formed_call c = true -> Inv st -> Inv (fst (step Math_log st c)).
Proof.
  intros Hwf HI. destruct c; simpl.
  - now apply definePrepTasks_Inv.
  - now apply defineConfig_Inv.
  - now apply addDoc_Inv.
  - now apply consolidate_Inv.
  - now rewrite search_state.
  - constructor; simpl; try constructor; try discriminate; tauto.
  - exact HI.
  - now apply importJSON_Inv.
Qed.





(** *** What the operations leave alone *)

Lemma addDoc_fields_frame ws doc id : forall st st' r,
  addDoc_fields ws doc id st = (st', r) ->
  consolidated st' = consolidated st /\ config st' = config st /\
  totalDocs st' = totalDocs st /\ learned st' = learned st /\
  idf st' = idf st /\ pTasks st' = pTasks st /\
  pTaskCount st' = pTaskCount st /\ flds st' = flds st.
Proof.
  induction ws as [|[field weight] rest IH]; simpl; intros st st' r H.
  - inversion H; subst. conjs.
  - destruct (lookup field doc) as [text|]; [|inversion H; subst; conjs].
    destruct (lookup id (own (documents st))) as [d|];
      [|inversion H; subst; conjs].
    destruct (updateFreq st id (PText text) weight (freq d) field)
      as [[fr idx] [len|e]].
    + apply IH in H. simpl in H. exact H.
    + inversion H; subst. simpl. conjs.
Qed.


Lemma addDoc_consolidated st doc id :
  consolidated (fst (addDoc st doc id)) = consolidated st.
Proof.
  unfold addDoc. destruct (config st) as [cfg|]; [|reflexivity].
  destruct (consolidated st) eqn:Ec; [exact Ec|].
  destruct (get (documents (set_learned st true)) id); try exact Ec.
  match goal with
  | |- context [addDoc_fields ?w ?d ?i ?s] =>
      destruct (addDoc_fields w d i s) as [st3 [u|e]] eqn:E
  end; apply addDoc_fields_frame in E as (Hc & _); simpl in *; congruence.
Qed.


Lemma search_before_consolidate st text limit :
  consolidated st = false -> search st text limit = (st, Throw InvalidState).
Proof. intros H. unfold search. now rewrite H. Qed.

Lemma search_after_consolidate st text limit :
  consolidated st = true -> snd (search st text limit) <> Throw InvalidState.
Proof.
  intros H. unfold search. rewrite H. simpl.
  destruct text as [|s]; [discriminate|].
  destruct (prepareInput st (PText s) "search") as [tkns|e] eqn:Ep; simpl.
  - destruct (score_tokens st (tokens_of tkns) []) as [r|e] eqn:Es; simpl;
      [discriminate|].
    intros He. inversion He; subst.
    assert (Hs : forall tk res, score_tokens st tk res <> Throw InvalidState).
    { assert (Hi : forall t ids res, score_ids st t ids res <> Throw InvalidState).
      { intros t ids. induction ids as [|i ids IH]; simpl; intros res;
          [discriminate|].
        unfold term_score. destruct (get (documents st) i); try discriminate.
        apply IH. }
      induction tk as [|t tk IH]; simpl; intros res; [discriminate|].
      destruct (score_ids st t (visited (invertedIdx st) t) res) eqn:Ei;
        [apply IH|]. intros Hx. inversion Hx; subst. now apply Hi in Ei. }
    now apply Hs in Es.
  - intros He. inversion He; subst. unfold prepareInput in Ep.
    assert (Hr : forall pt n i x, run_tasks pt i n x <> Throw InvalidState).
    { intros pt n. induction n as [|n IH]; simpl; intros i x; [discriminate|].
      destruct (nth_error pt i); [apply IH | discriminate]. }
    now apply Hr in Ep.
Qed.

(** Only [consolidate] sets the flag. *)
Lemma step_consolidated st c :
  no_consolidate c = true -> consolidated st = false ->
  consolidated (fst (step Math_log st c)) = false.
Proof.
  intros Hc H. destruct c; simpl; try discriminate; try reflexivity.
  - unfold definePrepTasks. destruct tasks as [|l]; [exact H|].
    destruct (all_functions l); [|exact H]. destruct field; exact H.
  - unfold defineConfig. destruct (learned st); [exact H|].
    destruct cfg as [|[ws|] ps]; try exact H.
    destruct ws as [|w ws]; [exact H|].
    destruct (copy_weights (w :: ws) []) as [acc [u|e]]; exact H.
  - now rewrite addDoc_consolidated.
  - now rewrite search_state.
  - exact H.
  - destruct input as [|[| | |[|c] [|s] [|d] [|i]]]; try exact H. reflexivity.
Qed.

Lemma run_consolidated cs : forall st,
  forallb no_consolidate cs = true -> consolidated st = false ->
  consolidated (run Math_log st cs) = false.
Proof.
  induction cs as [|c cs IH]; simpl; intros st Hn H; [exact H|].
  apply andb_prop in Hn as [Hc Hcs]. apply IH; [assumption|].
  now apply step_consolidated.
Qed.

(** ** Consolidation *)




(** ** Snapshots *)

(** C7.  A successful [importJSON] resets the engine (the pipelines apart),
    marks learning as started, loads the four elements of the snapshot as
    they are and leaves [consolidated] false, whatever the flag was in the
    instance that wrote the snapshot: [defineConfig] then fails with
    [InvalidState], and so does [search], after any calls that do not
    include [consolidate]; once [consolidate] has succeeded [search] no longer
    fails that way. *)
Theorem importJSON_unconsolidated :
  forall st input st',
  importJSON st input = (st', Return true) ->
  (exists c s d i,
     input = Text (ArrayOf4 (IsObject c) (IsObject s) (IsObject d) (IsObject i)) /\
     st' = {| pTasks := pTasks st; pTaskCount := pTaskCount st; flds := flds st;
              documents := mkObject true d;
              invertedIdx :=
                mkObject true (map (fun kv => (fst kv, Ids (snd kv))) i);
              idf := [];
              learned := true; consolidated := false;
              totalDocs := stats_totalDocs s;
              totalCorpusLength := stats_totalCorpusLength s;
              avgCorpusLength := 0%float;
              config := Some c |}) /\
  learned st' = true /\
  consolidated st' = false /\
  (forall cfg, defineConfig st' cfg = (st', Throw InvalidState)) /\
  (forall cs text limit,
     forallb no_consolidate cs = true ->
     search (run Math_log st' cs) text limit
     = (run Math_log st' cs, Throw InvalidState)) /\
  (forall st'' text limit,
     consolidate Math_log st' = (st'', Return true) ->
     snd (search st'' text limit) <> Throw InvalidState).
Proof.
  intros st input st' H.
  destruct input as [|[| | |[|c] [|s] [|d] [|i]]]; try discriminate.
  simpl in H. inversion H; subst. clear H.
  conjs.
  - exists c, s, d, i. split; reflexivity.
  - intros cs text limit Hn. apply search_before_consolidate.
    now apply run_consolidated.
  - intros st'' text limit Hc. apply search_after_consolidate.
    unfold consolidate in Hc. simpl in Hc.
    destruct (stats_totalDocs s <? 3); [discriminate|].
    inversion Hc; subst. reflexivity.
Qed.

(** ** The inverted index *)

Lemma containing_app docs1 docs2 t :
  containing (docs1 ++ docs2) t = containing docs1 t ++ containing docs2 t.
Proof. unfold containing, keys. now rewrite filter_app, map_app. Qed.

Lemma containing_last pre id d t :
  containing (pre ++ [(id, d)]) t
  = containing pre t ++ (if mentions t d then [id] else []).
Proof.
  rewrite containing_app. f_equal. unfold containing. simpl.
  destruct (mentions t d); reflexivity.
Qed.

Lemma containing_map (g : document -> document) docs t :
  (forall d, mentions t (g d) = mentions t d) ->
  containing (map (fun kv => (fst kv, g (snd kv))) docs) t = containing docs t.
Proof.
  intros Hg. unfold containing.
  induction docs as [|[id d] r IH]; simpl; [reflexivity|].
  rewrite Hg. destruct (mentions t d); simpl; now rewrite IH.
Qed.

Lemma In_containing docs t id :
  In id (containing docs t)
  <-> exists d, In (id, d) docs /\ mentions t d = true.
Proof.
  unfold containing, keys. rewrite in_map_iff. split.
  - intros ([id' d] & Hfst & Hin). simpl in Hfst. subst.
    apply filter_In in Hin. simpl in Hin. exists d. tauto.
  - intros (d & Hin & Hm). exists (id, d). split; [reflexivity|].
    apply filter_In. simpl. tauto.
Qed.

Lemma containing_NoDup docs t : NoDup (keys docs) -> NoDup (containing docs t).
Proof.
  unfold containing.
  induction docs as [|[id d] r IH]; simpl; intros H; [constructor|].
  inversion H; subst. destruct (mentions t d); simpl; [|auto].
  constructor; [|auto]. intros Hin. apply H2.
  unfold keys in Hin. apply in_map_iff in Hin as ([id' d'] & Hf & Hin).
  simpl in Hf. subst. apply filter_In in Hin as [Hin _].
  change (In (fst (id, d')) (map fst r)). now apply in_map.
Qed.

Lemma app_singleton_not_nil {A : Type} (l : list A) x : l ++ [x] <> [].
Proof. destruct l; discriminate. Qed.

(** One token of the document being added, which is the last of the store. *)
Lemma index_token_consistent pre id len w t fr idx fr' idx' r :
  index_token id w t fr idx = (fr', idx', r) ->
  consistent (pre ++ [(id, mkDoc fr len)]) idx ->
  r = Return tt /\ consistent (pre ++ [(id, mkDoc fr' len)]) idx'.
Proof.
  unfold index_token, consistent. intros H [Hinh Hc].
  destruct (lookup t fr) as [old|] eqn:Et.
  - inversion H; subst. conjs. intros t'. rewrite Hc.
    unfold posting_for. rewrite !containing_last. unfold mentions. simpl.
    destruct (string_dec t t') as [<-|Hne].
    + now rewrite lookup_assign_same, Et.
    + now rewrite lookup_assign_other.
  - pose proof (Hc t) as Ht. unfold posting_for in Ht.
    rewrite containing_last in Ht. unfold mentions in Ht. simpl in Ht.
    rewrite Et, app_nil_r in Ht.
    assert (Hother : forall t' x, t <> t' ->
               posting_for (pre ++ [(id, mkDoc (assign t x fr) len)]) t'
               = posting_for (pre ++ [(id, mkDoc fr len)]) t').
    { intros t' x Hne. unfold posting_for. rewrite !containing_last.
      unfold mentions. simpl. now rewrite lookup_assign_other. }
    assert (Hsame : forall x,
               containing (pre ++ [(id, mkDoc (assign t x fr) len)]) t
               = containing pre t ++ [id]).
    { intros x. rewrite containing_last. unfold mentions. simpl.
      now rewrite lookup_assign_same. }
    unfold get in H. rewrite Ht, Hinh in H. simpl in H.
    destruct (containing pre t) as [|i0 l0] eqn:Ec.
    + inversion H; subst. simpl. conjs. intros t'.
      destruct (string_dec t t') as [<-|Hne].
      * rewrite lookup_assign_same. unfold posting_for.
        now rewrite Hsame.
      * rewrite lookup_assign_other by assumption. rewrite Hc.
        symmetry. now apply Hother.
    + inversion H; subst. simpl. conjs. intros t'.
      destruct (string_dec t t') as [<-|Hne].
      * rewrite lookup_assign_same. unfold posting_for.
        now rewrite Hsame.
      * rewrite lookup_assign_other by assumption. rewrite Hc.
        symmetry. now apply Hother.
Qed.

Lemma index_tokens_consistent pre id len w tkns : forall fr idx fr' idx' r,
  index_tokens id w tkns fr idx = (fr', idx', r) ->
  consistent (pre ++ [(id, mkDoc fr len)]) idx ->
  r = Return tt /\ consistent (pre ++ [(id, mkDoc fr' len)]) idx'.
Proof.
  induction tkns as [|t rest IH]; simpl; intros fr idx fr' idx' r H Hc.
  - inversion H; subst. auto.
  - destruct (index_token id w t fr idx) as [[fr1 idx1] r1] eqn:E.
    destruct (index_token_consistent _ _ _ _ _ _ _ _ _ _ E Hc) as [-> Hc1].
    eapply IH; eauto.
Qed.

Lemma addDoc_fields_adding ws doc id : forall st st' r,
  addDoc_fields ws doc id st = (st', r) ->
  adding id st -> adding id st'.
Proof.
  induction ws as [|[field weight] rest IH]; simpl; intros st st' r H Ha.
  - now inversion H; subst.
  - destruct (lookup field doc) as [text|]; [|now inversion H; subst].
    destruct Ha as (pre & d & Hd & Hpre & Hc).
    rewrite Hd, lookup_middle in H by assumption.
    assert (Hstep : forall fr idx len,
               consistent (pre ++ [(id, mkDoc fr len)]) idx ->
               adding id
                 (set_invertedIdx
                    (set_documents st (put (documents st) id (mkDoc fr len)))
                    idx)).
    { intros fr idx len Hc'. exists pre, (mkDoc fr len). simpl.
      rewrite Hd, assign_middle by assumption. auto. }
    unfold updateFreq in H.
    destruct (prepareInput st (PText text) field) as [tkns|e].
    + destruct (index_tokens id weight (tokens_of tkns) (freq d) (invertedIdx st))
        as [[fr idx] r1] eqn:E.
      destruct (index_tokens_consistent pre id (doc_length d) _ _ _ _ _ _ _ E)
        as [-> Hc1].
      { rewrite Hd in Hc. now destruct d. }
      apply IH in H; [assumption|].
      destruct (Hstep fr idx (Num (ToNumber (doc_length d)
                  + float_of_nat (List.length (tokens_of tkns))
                    * Math_abs (ToNumber weight))%float)) as (p & d' & ? & ? & ?).
      { destruct Hc1 as [Hi Hl]. split; [assumption|]. intros t.
        rewrite Hl. unfold posting_for. now rewrite !containing_last. }
      exists p, d'. simpl in *. auto.
    + inversion H; subst. apply Hstep.
      rewrite Hd in Hc. now destruct d.
Qed.

Lemma addDoc_IdxInv st doc id : IdxInv st -> IdxInv (fst (addDoc st doc id)).
Proof.
  intros HI. unfold addDoc.
  destruct (config st) as [cfg|]; [|exact HI].
  destruct (consolidated st); [exact HI|].
  destruct (get (documents (set_learned st true)) id) as [|d|f] eqn:Eg;
    try exact HI.
  match goal with
  | |- context [addDoc_fields ?w ?d ?i ?s] =>
      destruct (addDoc_fields w d i s) as [st3 r] eqn:E;
      apply addDoc_fields_adding in E
  end.
  - destruct E as (pre & d & _ & _ & Hc). destruct r; exact Hc.
  - unfold get in Eg. simpl in Eg.
    destruct (lookup id (own (documents st))) eqn:El; [discriminate|].
    apply lookup_None in El.
    exists (own (documents st)), (mkDoc [] (Num 0)). simpl.
    rewrite assign_absent by assumption. conjs.
    destruct HI as [Hi Hl]. split; [assumption|]. intros t.
    rewrite Hl. unfold posting_for. rewrite containing_last.
    unfold mentions. simpl. now rewrite app_nil_r.
Qed.

Lemma mentions_consolidated b k1 avg t d :
  mentions t (consolidated_document b k1 avg d) = mentions t d.
Proof.
  unfold mentions, consolidated_document. simpl.
  rewrite (lookup_map_values (fun x => Num (saturate _ _ (ToNumber x)))).
  destruct (lookup t (freq d)); reflexivity.
Qed.

Lemma step_IdxInv st c :
  no_import c = true -> Inv st -> IdxInv st ->
  IdxInv (fst (step Math_log st c)).
Proof.
  intros Hc HI Hx. destruct c; simpl; try discriminate.
  - unfold definePrepTasks. destruct tasks as [|l]; [exact Hx|].
    destruct (all_functions l); [|exact Hx]. destruct field; exact Hx.
  - unfold defineConfig. destruct (learned st); [exact Hx|].
    destruct cfg as [|[ws|] ps]; try exact Hx.
    destruct ws as [|w ws]; [exact Hx|].
    destruct (copy_weights (w :: ws) []) as [acc [u|e]]; exact Hx.
  - now apply addDoc_IdxInv.
  - destruct (Z.lt_ge_cases (totalDocs st) 3) as [Hlt|Hge].
    + now rewrite consolidate_fails.
    + destruct (config st) as [cfg|] eqn:Ec.
      * rewrite (consolidate_succeeds _ cfg) by assumption.
        unfold IdxInv. simpl.
        rewrite consolidate_documents_map
          by (apply (inv_documents _ HI) || apply (inv_freq _ HI)).
        destruct Hx as [Hi Hl]. split; [assumption|]. intros t.
        rewrite Hl. unfold posting_for.
        rewrite containing_map; [reflexivity|].
        intros d. apply mentions_consolidated.
      * unfold consolidate. rewrite Ec.
        destruct (totalDocs st <? 3); exact Hx.
  - now rewrite search_state.
  - split; reflexivity.
  - exact Hx.
Qed.

Lemma run_built cs : forall st,
  forallb no_import cs = true -> Inv st -> IdxInv st ->
  Inv (run Math_log st cs) /\ IdxInv (run Math_log st cs).
Proof.
  induction cs as [|c cs IH]; simpl; intros st Hn HI Hx; [auto|].
  apply andb_prop in Hn as [Hc Hcs]. apply IH; [assumption | |].
  - apply step_Inv; [|assumption]. destruct c; try reflexivity; discriminate.
  - now apply step_IdxInv.
Qed.

Lemma built_IdxInv st : built Math_log st -> Inv st /\ IdxInv st.
Proof.
  intros (cs & Hn & ->).
  apply run_built; [assumption | apply Inv_init | split; reflexivity].
Qed.

Lemma addDoc_fields_keys ws doc id : forall st st' r,
  addDoc_fields ws doc id st = (st', r) ->
  In id (keys (own (documents st))) ->
  keys (own (documents st')) = keys (own (documents st)).
Proof.
  induction ws as [|[field weight] rest IH]; simpl; intros st st' r H Hin.
  - now inversion H; subst.
  - destruct (lookup field doc) as [text|]; [|now inversion H; subst].
    destruct (lookup id (own (documents st))) as [d|];
      [|now inversion H; subst].
    destruct (updateFreq st id (PText text) weight (freq d) field)
      as [[fr idx] [len|e]].
    + apply IH in H; simpl in *.
      * now rewrite H, keys_assign_present.
      * now rewrite keys_assign_present.
    + inversion H; subst. simpl. now apply keys_assign_present.
Qed.

(** A new id goes to the end of the document store, whether the call then
    succeeds or not. *)
Lemma addDoc_appends st doc id :
  config st <> None -> consolidated st = false ->
  get (documents st) id = Undefined ->
  keys (own (documents (fst (addDoc st doc id))))
  = keys (own (documents st)) ++ [id].
Proof.
  intros Hcfg Hc Hg. unfold addDoc.
  destruct (config st) as [cfg|]; [|congruence]. rewrite Hc.
  change (documents (set_learned st true)) with (documents st). rewrite Hg.
  assert (Hn : ~ In id (keys (own (documents st)))).
  { unfold get in Hg. destruct (lookup id (own (documents st))) eqn:El;
      [discriminate|]. now apply lookup_None in El. }
  match goal with
  | |- context [addDoc_fields ?w ?d ?i ?s] =>
      destruct (addDoc_fields w d i s) as [st3 r] eqn:E;
      apply addDoc_fields_keys in E
  end.
  - simpl in E. rewrite keys_assign_absent in E by assumption.
    destruct r; simpl; exact E.
  - simpl. rewrite keys_assign_absent by assumption.
    apply in_or_app. right. now left.
Qed.

(** C8.  In every state reached without [importJSON] the inverted index
    maps each term [t] to the ids of exactly the documents whose frequency
    map has [t]: [undefined] when there is none, otherwise the list of them
    in the order of the document store, each id once; and the document store
    is in addition order (a new id is appended at its end). *)
Theorem inverted_index_lists_documents :
  forall st, built Math_log st ->
  (forall t,
     get (invertedIdx st) t
     = match containing (own (documents st)) t with
       | [] => Undefined
       | l => Own (Ids l)
       end) /\
  (forall t id,
     In id (containing (own (documents st)) t)
     <-> exists d, lookup id (own (documents st)) = Some d /\
                   lookup t (freq d) <> None) /\
  (forall t, NoDup (containing (own (documents st)) t)) /\
  (forall doc id,
     config st <> None -> consolidated st = false ->
     get (documents st) id = Undefined ->
     keys (own (documents (fst (addDoc st doc id))))
     = keys (own (documents st)) ++ [id]).
Proof.
  intros st Hb. destruct (built_IdxInv st Hb) as [HI [Hinh Hl]].
  split; [|split; [|split]].
  - intros t. unfold get. rewrite Hl, Hinh. unfold posting_for.
    destruct (containing (own (documents st)) t); reflexivity.
  - intros t id. rewrite In_containing. unfold mentions.
    split; intros (d & Hd & Hm).
    + exists d. split; [apply lookup_of_In; [apply (inv_documents _ HI)|assumption]|].
      destruct (lookup t (freq d)); [discriminate | discriminate].
    + exists d. split.
      * clear - Hd. induction (own (documents st)) as [|[k' v'] r IH];
          simpl in *; [discriminate|].
        destruct (String.eqb_spec k' id) as [->|Hne]; [|auto].
        inversion Hd; subst. now left.
      * destruct (lookup t (freq d)); [reflexivity | congruence].
  - intros t. apply containing_NoDup. apply (inv_documents _ HI).
  - intros doc id. apply addDoc_appends.
Qed.

(** ** The life cycle *)

(** *** A duplicate id leaves the state alone *)

Lemma addDoc_Started st doc id : Started st -> Started (fst (addDoc st doc id)).
Proof.
  intros HS. unfold addDoc.
  destruct (config st) as [cfg|]; [|exact HS].
  destruct (consolidated st); [exact HS|].
  destruct (get (documents (set_learned st true)) id);
    try (intros _; reflexivity).
  match goal with
  | |- context [addDoc_fields ?w ?d ?i ?s] =>
      destruct (addDoc_fields w d i s) as [st3 r] eqn:E;
      apply addDoc_fields_frame in E as (_ & _ & _ & Hl & _)
  end.
  simpl in Hl. destruct r; intros _; simpl; exact Hl.
Qed.

Lemma step_Started st c : Started st -> Started (fst (step Math_log st c)).
Proof.
  intros HS. destruct c; simpl.
  - unfold definePrepTasks. destruct tasks as [|l]; [exact HS|].
    destruct (all_functions l); [|exact HS]. destruct field; exact HS.
  - unfold defineConfig. destruct (learned st) eqn:El; [exact HS|].
    destruct cfg as [|[ws|] ps]; try exact HS.
    destruct ws as [|w ws]; [exact HS|].
    destruct (copy_weights (w :: ws) []) as [acc [u|e]]; exact HS.
  - now apply addDoc_Started.
  - unfold consolidate. destruct (totalDocs st <? 3); [exact HS|].
    destruct (config st); [|exact HS]. unfold Started in *. simpl.
    intros [Hd|Hi]; apply HS; [left | now right].
    intros Hnil. apply Hd. now rewrite Hnil.
  - now rewrite search_state.
  - intros [H|H]; [now contradiction H | discriminate H].
  - exact HS.
  - destruct input as [|[| | |[|c] [|s] [|d] [|i]]]; try exact HS.
    intros _. reflexivity.
Qed.

Lemma reachable_Started st : reachable Math_log st -> Started st.
Proof.
  intros (cs & _ & ->).
  assert (H : forall s, Started s -> Started (run Math_log s cs)).
  { induction cs as [|c cs IH]; simpl; intros s Hs; [exact Hs|].
    apply IH. now apply step_Started. }
  apply H. intros [H0|H0]; [now contradiction H0 | discriminate H0].
Qed.





(** *** When the tasks of a field run *)

Lemma step_Counted st c : Counted st -> Counted (fst (step Math_log st c)).
Proof.
  intros HC. destruct c; simpl.
  - unfold definePrepTasks. destruct tasks as [|l]; [exact HC|].
    destruct (all_functions l) as [fs|]; [|exact HC].
    destruct HC as [Hd Hf]. destruct field as [|f|]; simpl.
    + split; [now right | exact Hf].
    + split; [exact Hd|]. intros f' e. simpl.
      destruct (string_dec f f') as [<-|Hne].
      * rewrite lookup_assign_same. intros He. now inversion He.
      * rewrite lookup_assign_other by assumption. apply Hf.
    + split; assumption.
  - unfold defineConfig. destruct (learned st); [exact HC|].
    destruct cfg as [|[ws|] ps]; try exact HC.
    destruct ws as [|w ws]; [exact HC|].
    destruct (copy_weights (w :: ws) []) as [acc [u|e]]; exact HC.
  - unfold addDoc. destruct (config st) as [cfg|]; [|exact HC].
    destruct (consolidated st); [exact HC|].
    destruct (get (documents (set_learned st true)) id); try exact HC.
    match goal with
    | |- context [addDoc_fields ?w ?d ?i ?s] =>
        destruct (addDoc_fields w d i s) as [st3 r] eqn:E;
        apply addDoc_fields_frame in E as (_ & _ & _ & _ & _ & Hp & Hn & Hf)
    end.
    simpl in *. unfold Counted.
    destruct r; simpl; rewrite Hp, Hn, Hf; exact HC.
  - unfold consolidate. destruct (totalDocs st <? 3); [exact HC|].
    destruct (config st); exact HC.
  - now rewrite search_state.
  - exact HC.
  - exact HC.
  - destruct input as [|[| | |[|c] [|s] [|d] [|i]]]; exact HC.
Qed.


Lemma reachable_Counted st : reachable Math_log st -> Counted st.
Proof.
  intros (cs & _ & ->).
  assert (H : forall s, Counted s -> Counted (run Math_log s cs)).
  { induction cs as [|c cs IH]; simpl; intros s Hs; [exact Hs|].
    apply IH. now apply step_Counted. }
  apply H. split; [now left | discriminate].
Qed.


(** ** Search *)





(** [Math.max( ( limit || 10 ), 1 )] spelled out. *)
Lemma effective_limit_cases limit :
  effective_limit limit
  = match limit with
    | None => 10
    | Some n => if n =? 0 then 10 else Z.max n 1
    end.
Proof.
  destruct limit as [[|p|p]|]; reflexivity.
Qed.


(** C4 (amended).  [search] cuts its sorted result list, which does not
    depend on the limit, to the first [max(limit', 1)] entries, [limit']
    being the limit, or 10 when the limit is absent or 0: a negative limit
    gives at most 1 result, a limit of 0 or no limit at most 10, and a
    non-empty list is never cut to nothing. *)
Theorem search_limit :
  forall st text limit r,
  snd (search st text limit) = Return r ->
  exists ranked,
    (forall limit',
       search st text limit'
       = (st, Return (firstn (Z.to_nat (effective_limit limit')) ranked))) /\
    effective_limit limit
    = match limit with
      | None => 10
      | Some n => if n =? 0 then 10 else Z.max n 1
      end /\
    List.length r
    = Nat.min (Z.to_nat (effective_limit limit)) (List.length ranked) /\
    (ranked <> [] -> r <> []) /\
    (forall n, limit = Some n -> n < 0 -> (List.length r <= 1)%nat) /\
    (limit = None \/ limit = Some 0 -> (List.length r <= 10)%nat).
Proof.
  intros st text limit r H. unfold search in *.
  destruct (negb (consolidated st)); [discriminate|].
  destruct text as [|s]; [discriminate|].
  destruct (prepareInput st (PText s) "search") as [tkns|e]; [|discriminate].
  destruct (score_tokens st (tokens_of tkns) []) as [results|e]; [|discriminate].
  simpl in H. inversion H; subst. clear H.
  exists (sort descendingOnValue (table results)).
  split; [reflexivity|]. split; [apply effective_limit_cases|].
  unfold slice0. rewrite length_firstn.
  split; [reflexivity|]. split; [|split].
  - intros Hne. destruct (sort descendingOnValue (table results)) as [|x l];
      [congruence|].
    assert (Hpos : (0 < Z.to_nat (effective_limit limit))%nat)
      by (unfold effective_limit; lia).
    destruct (Z.to_nat (effective_limit limit)); [lia | discriminate].
  - intros n -> Hn. destruct n as [|q|q]; try lia.
    change (effective_limit (Some (Z.neg q))) with 1. lia.
  - intros [->| ->]; change (effective_limit _) with 10; lia.
Qed.

End Reachability.

(** * Further properties of the operations *)


Section Extras.

Variable Math_log : float -> float.

(** ** The pipeline of a field *)

Lemma nth_error_skipn {A : Type} (l : list A) : forall i,
  (i < List.length l)%nat ->
  exists x, nth_error l i = Some x /\ skipn i l = x :: skipn (S i) l.
Proof.
  induction l as [|y l IH]; intros i Hi; simpl in Hi; [lia|].
  destruct i as [|i]; [exists y; auto|].
  destruct (IH i) as [x [H1 H2]]; [lia|]. exists x. split; auto.
Qed.

Lemma run_tasks_all pt : forall n i x,
  (i + n = List.length pt)%nat ->
  run_tasks pt i n x = Return (apply_tasks (skipn i pt) x).
Proof.
  induction n as [|n IH]; intros i x H; simpl.
  - rewrite skipn_all2 by lia. reflexivity.
  - destruct (nth_error_skipn pt i) as [f [H1 H2]]; [lia|].
    rewrite H1, H2. simpl. apply IH. lia.
Qed.

Lemma prepareInput_counted st input field :
  Counted st ->
  prepareInput st input field
  = match lookup field (flds st) with
    | Some e =>
        match fld_pTasks e, pTasks st with
        | [], [] => Return input
        | [], _ :: _ => Throw TypeError
        | fs, _ => Return (apply_tasks fs input)
        end
    | None => Return (apply_tasks (pTasks st) input)
    end.
Proof.
  intros [Hd Hf].
  unfold prepareInput, tasks_for, count_for.
  destruct (lookup field (flds st)) as [e|] eqn:El.
  - rewrite (Hf _ _ El).
    destruct (fld_pTasks e) as [|f fs] eqn:Ef.
    + simpl. destruct Hd as [[Hc Hp]|Hc]; rewrite Hc.
      * rewrite Hp. reflexivity.
      * destruct (pTasks st); reflexivity.
    + change (iterations (Some (List.length (f :: fs))))
        with (List.length (f :: fs)).
      rewrite run_tasks_all by reflexivity. reflexivity.
  - destruct Hd as [[Hc Hp]|Hc]; rewrite Hc.
    + rewrite Hp. reflexivity.
    + simpl. rewrite run_tasks_all by reflexivity. reflexivity.
Qed.

(** X1.  In every state the public operations can reach, [prepareInput]
    applies to the input the tasks defined for the field, in order, when
    the field has a non-empty task list of its own; a field without a list
    of its own gets the default tasks, in order, and the input comes back
    as it is when no task was ever defined.  A field whose own list is empty
    gets the input back only if there are no default tasks either; with
    default tasks the call ends in a [TypeError]. *)
Theorem prepareInput_applies_tasks :
  forall st input field, reachable Math_log st ->
  prepareInput st input field
  = match lookup field (flds st) with
    | Some e =>
        match fld_pTasks e, pTasks st with
        | [], [] => Return input
        | [], _ :: _ => Throw TypeError
        | fs, _ => Return (apply_tasks fs input)
        end
    | None => Return (apply_tasks (pTasks st) input)
    end.
Proof.
  intros st input field Hr. apply prepareInput_counted.
  apply (reachable_Counted Math_log), Hr.
Qed.

Lemma all_functions_Some fs : all_functions (map Some fs) = Some fs.
Proof. induction fs as [|f fs IH]; simpl; [|rewrite IH]; reflexivity. Qed.

(** X2.  The pipelines of the fields are independent.  Defining a
    non-empty list of tasks for a field returns the number of tasks; from
    then on [prepareInput] applies exactly those tasks, in order, to the
    input of that field, and what it does for every other field is unchanged.
    Defining a non-empty default list changes nothing for a field that has a
    non-empty list of its own. *)
Theorem definePrepTasks_per_field :
  forall st fs f, fs <> [] ->
  (let r := definePrepTasks st (TaskArray (map Some fs)) (FieldName f) in
   snd r = Return (List.length fs) /\
   (forall input,
      prepareInput (fst r) input f = Return (apply_tasks fs input)) /\
   (forall g input, g <> f ->
      prepareInput (fst r) input g = prepareInput st input g)) /\
  (let r := definePrepTasks st (TaskArray (map Some fs)) NoField in
   snd r = Return (List.length fs) /\
   (forall g e input,
      lookup g (flds st) = Some e -> fld_pTaskCount e <> O ->
      prepareInput (fst r) input g = prepareInput st input g) /\
   (forall g input,
      lookup g (flds st) = None ->
      prepareInput (fst r) input g = Return (apply_tasks fs input))).
Proof.
  intros st fs f Hne. unfold definePrepTasks. rewrite all_functions_Some.
  split; simpl; (split; [reflexivity|]); split.
  - intros input. unfold prepareInput, tasks_for, count_for. simpl.
    rewrite lookup_assign_same. simpl.
    destruct fs as [|t fs]; [congruence|].
    change (iterations (Some (List.length (t :: fs))))
      with (List.length (t :: fs)).
    rewrite run_tasks_all by reflexivity. reflexivity.
  - intros g input Hg. unfold prepareInput, tasks_for, count_for. simpl.
    rewrite lookup_assign_other by congruence. reflexivity.
  - intros g e input Hl Hn. unfold prepareInput, tasks_for, count_for. simpl.
    rewrite Hl. destruct (fld_pTaskCount e); [congruence|reflexivity].
  - intros g input Hl. unfold prepareInput, tasks_for, count_for. simpl.
    rewrite Hl. simpl. rewrite run_tasks_all by reflexivity. reflexivity.
Qed.

(** ** reset *)

Lemma definePrepTasks_pipeline st st' tasks field :
  pTasks st = pTasks st' -> pTaskCount st = pTaskCount st' ->
  flds st = flds st' ->
  let s := fst (definePrepTasks st tasks field) in
  let s' := fst (definePrepTasks st' tasks field) in
  pTasks s = pTasks s' /\ pTaskCount s = pTaskCount s' /\ flds s = flds s'.
Proof.
  intros H1 H2 H3. unfold definePrepTasks.
  destruct tasks as [|l]; simpl; auto.
  destruct (all_functions l); simpl; auto.
  destruct field; simpl; auto. rewrite H3. auto.
Qed.

Lemma definePrepTasks_data st tasks field :
  let s := fst (definePrepTasks st tasks field) in
  documents s = documents st /\ invertedIdx s = invertedIdx st /\
  idf s = idf st /\ learned s = learned st /\
  consolidated s = consolidated st /\ totalDocs s = totalDocs st /\
  totalCorpusLength s = totalCorpusLength st /\
  avgCorpusLength s = avgCorpusLength st /\ config s = config st.
Proof.
  unfold definePrepTasks.
  destruct tasks as [|l]; simpl; conjs.
  all: destruct (all_functions l); simpl; auto.
  all: destruct field; simpl; auto.
Qed.

Lemma defineConfig_frame st cfg :
  let s := fst (defineConfig st cfg) in
  pTasks s = pTasks st /\ pTaskCount s = pTaskCount st /\ flds s = flds st /\
  documents s = documents st /\ invertedIdx s = invertedIdx st /\
  idf s = idf st /\ learned s = learned st /\
  consolidated s = consolidated st /\ totalDocs s = totalDocs st /\
  totalCorpusLength s = totalCorpusLength st /\
  avgCorpusLength s = avgCorpusLength st.
Proof.
  unfold defineConfig. destruct (learned st) eqn:El; [simpl; conjs|].
  destruct cfg as [|[ws|] ps]; [simpl; conjs| |simpl; conjs].
  destruct ws as [|p ws]; [simpl; conjs|].
  destruct (copy_weights (p :: ws) []) as [acc [u|e]]; simpl; conjs.
Qed.

Lemma step_pipeline st c :
  is_definePrepTasks c = false ->
  let s := fst (step Math_log st c) in
  pTasks s = pTasks st /\ pTaskCount s = pTaskCount st /\ flds s = flds st.
Proof.
  intros Hc. destruct c; try discriminate; simpl.
  - destruct (defineConfig_frame st cfg) as (F1 & F2 & F3 & _). auto.
  - unfold addDoc. destruct (config st); simpl; auto.
    destruct (consolidated st); simpl; auto.
    destruct (get _ id); simpl; auto.
    destruct (addDoc_fields _ _ _ _) as [st3 r] eqn:E.
    apply addDoc_fields_frame in E.
    destruct E as (_ & _ & _ & _ & _ & E1 & E2 & E3).
    destruct r; simpl; auto.
  - unfold consolidate. destruct (totalDocs st <? 3); simpl; auto.
    destruct (config st); simpl; auto.
  - rewrite search_state. auto.
  - auto.
  - auto.
  - destruct input as [|[| | |[|c] [|s] [|d] [|i]]]; simpl; auto.
Qed.

Lemma run_pipeline cs : forall st st',
  pTasks st = pTasks st' -> pTaskCount st = pTaskCount st' ->
  flds st = flds st' ->
  let s := run Math_log st cs in
  let s' := run Math_log st' (filter is_definePrepTasks cs) in
  (pTasks s = pTasks s' /\ pTaskCount s = pTaskCount s' /\ flds s = flds s') /\
  documents s' = documents st' /\ invertedIdx s' = invertedIdx st' /\
  idf s' = idf st' /\ learned s' = learned st' /\
  consolidated s' = consolidated st' /\ totalDocs s' = totalDocs st' /\
  totalCorpusLength s' = totalCorpusLength st' /\
  avgCorpusLength s' = avgCorpusLength st' /\ config s' = config st'.
Proof.
  induction cs as [|c cs IH]; intros st st' H1 H2 H3; simpl.
  - conjs.
  - destruct (is_definePrepTasks c) eqn:Ec.
    + destruct c; try discriminate. simpl.
      destruct (definePrepTasks_pipeline st st' tasks field H1 H2 H3)
        as (P1 & P2 & P3).
      destruct (IH _ _ P1 P2 P3) as (Q & D).
      split; [exact Q|].
      destruct (definePrepTasks_data st' tasks field)
        as (D1 & D2 & D3 & D4 & D5 & D6 & D7 & D8 & D9).
      rewrite <- D1, <- D2, <- D3, <- D4, <- D5, <- D6, <- D7, <- D8, <- D9.
      exact D.
    + destruct (step_pipeline st c Ec) as (P1 & P2 & P3).
      apply IH; congruence.
Qed.

(** X3.  [reset] after any sequence of calls leaves the engine in the state
    of a fresh engine on which only the [definePrepTasks] calls of the
    sequence were made: every learned datum and the configuration are
    gone, the pipelines are kept. *)
Theorem reset_keeps_pipelines_only :
  forall cs,
  reset (run Math_log init cs)
  = (run Math_log init (filter is_definePrepTasks cs), Return true).
Proof.
  intros cs. unfold reset. f_equal.
  destruct (run_pipeline cs init init eq_refl eq_refl eq_refl)
    as ((P1 & P2 & P3) & D1 & D2 & D3 & D4 & D5 & D6 & D7 & D8 & D9).
  rewrite P1, P2, P3.
  destruct (run Math_log init (filter is_definePrepTasks cs)).
  simpl in *. congruence.
Qed.

(** ** defineConfig *)

Lemma copy_weights_valid ws : forall acc,
  forallb (fun kv => valid_weight (snd kv)) ws = true ->
  copy_weights ws acc = (copied ws acc, Return tt).
Proof.
  induction ws as [|[f w] ws IH]; intros acc H; simpl in *; auto.
  apply andb_true_iff in H. destruct H as [Hw H].
  destruct w; simpl in *; try discriminate.
  destruct (PrimFloat.is_nan f0); [discriminate|]. apply IH, H.
Qed.

Lemma copy_weights_invalid pre f w rest : forall acc,
  forallb (fun kv => valid_weight (snd kv)) pre = true ->
  valid_weight w = false ->
  copy_weights (pre ++ (f, w) :: rest) acc
  = (copied pre acc, Throw InvalidArgument).
Proof.
  induction pre as [|[f' w'] pre IH]; intros acc H Hw; simpl in *.
  - destruct w; simpl in *; try discriminate; auto.
    destruct (PrimFloat.is_nan f0); [auto|discriminate].
  - apply andb_true_iff in H. destruct H as [Hw' H].
    destruct w'; simpl in *; try discriminate.
    destruct (PrimFloat.is_nan f0); [discriminate|]. apply IH; auto.
Qed.

Lemma first_invalid (ws : props arg) :
  forallb (fun kv => valid_weight (snd kv)) ws = false ->
  exists pre f w rest,
    ws = pre ++ (f, w) :: rest /\
    forallb (fun kv => valid_weight (snd kv)) pre = true /\
    valid_weight w = false.
Proof.
  induction ws as [|[f w] ws IH]; simpl; [discriminate|].
  destruct (valid_weight w) eqn:Ew; simpl.
  - intros H. destruct (IH H) as (pre & f' & w' & rest & E & Hp & Hw).
    exists ((f, w) :: pre), f', w', rest. simpl. rewrite Ew, E. auto.
  - intros _. exists [], f, w, ws. auto.
Qed.

Lemma copied_app (ws : props arg) : forall acc,
  NoDup (keys acc ++ keys ws) ->
  copied ws acc = acc ++ stored_weights ws.
Proof.
  induction ws as [|[f w] ws IH]; intros acc H; simpl.
  - rewrite app_nil_r. reflexivity.
  - unfold copied. simpl. fold (copied ws (assign f (Num (plus w)) acc)).
    assert (Hf : ~ In f (keys acc)).
    { intros Hin. simpl in H. apply NoDup_remove_2 in H. apply H.
      apply in_or_app. auto. }
    rewrite (assign_absent _ _ _ Hf).
    rewrite IH.
    + rewrite <- app_assoc. reflexivity.
    + unfold keys in *. rewrite map_app. simpl. rewrite <- app_assoc. exact H.
Qed.

(** X4.  On an engine that has not started learning, [defineConfig] accepts
    a configuration whose [fldWeights] has at least one field and only
    weights that are neither [null] nor NaN: it returns [true] and the
    configuration becomes the fields in their order, each weight converted
    to a number, with the BM25 parameters read from [bm25Params] (the
    defaults 1.2, 0.75 and 1 for those absent, [null] or NaN); nothing else
    in the engine changes. *)
Theorem defineConfig_accepts :
  forall st ws ps,
  learned st = false -> ws <> [] -> NoDup (keys ws) ->
  forallb (fun kv => valid_weight (snd kv)) ws = true ->
  defineConfig st (CfgObject (Some ws) ps)
  = (set_config st
       (Some {| fldWeights := stored_weights ws;
                bm25Params :=
                  match ps with
                  | None => defaultParams
                  | Some a =>
                      {| k1 := param_or (arg_k1 a) 1.2%float;
                         b := param_or (arg_b a) 0.75%float;
                         k := param_or (arg_k a) 1%float |}
                  end |}),
     Return true) /\
  (forall a d, valid_weight a = false -> param_or a d = Num d) /\
  (forall f d, PrimFloat.is_nan f = false -> param_or (ArgNumber f) d = Num f).
Proof.
  intros st ws ps Hl Hne Hd Hv. split; [|split].
  - unfold defineConfig. rewrite Hl.
    destruct ws as [|p ws]; [congruence|].
    rewrite (copy_weights_valid _ _ Hv).
    rewrite (copied_app (p :: ws) []) by exact Hd.
    destruct ps; reflexivity.
  - intros a d Ha. destruct a; simpl in *; auto; try discriminate.
    destruct (PrimFloat.is_nan f); [auto|discriminate].
  - intros f d Hf. simpl. rewrite Hf. reflexivity.
Qed.

(** X5.  When [defineConfig] fails, either learning has started (the
    error is the invalid-state one and the engine is unchanged), or the
    argument is rejected as invalid: the engine is unchanged when [cfg] or
    [cfg.fldWeights] is not an object or [fldWeights] is empty, but when the
    failure is a bad weight the configuration has already been replaced: it
    holds the fields that precede the bad one and the default parameters. *)
Theorem defineConfig_rejects :
  forall st cfg e,
  snd (defineConfig st cfg) = Throw e ->
  (learned st = true /\ e = InvalidState /\ fst (defineConfig st cfg) = st) \/
  (learned st = false /\ e = InvalidArgument /\
   ((fst (defineConfig st cfg) = st /\
     forall ws ps, cfg = CfgObject (Some ws) ps -> ws = []) \/
    exists pre f w rest ps,
      cfg = CfgObject (Some (pre ++ (f, w) :: rest)) ps /\
      forallb (fun kv => valid_weight (snd kv)) pre = true /\
      valid_weight w = false /\
      fst (defineConfig st cfg)
      = set_config st
          (Some {| fldWeights := copied pre [];
                   bm25Params := defaultParams |}))).
Proof.
  intros st cfg e. unfold defineConfig.
  destruct (learned st) eqn:El; simpl.
  - intros H. left. inversion H. auto.
  - intros H. right. split; auto.
    destruct cfg as [|[ws|] ps].
    + inversion H. split; auto. left. split; auto. discriminate.
    + destruct ws as [|p ws].
      * inversion H. split; auto. left. split; auto.
        intros ws' ps' E. inversion E. auto.
      * destruct (forallb (fun kv => valid_weight (snd kv)) (p :: ws)) eqn:Ev.
        -- rewrite (copy_weights_valid _ _ Ev) in H. discriminate.
        -- destruct (first_invalid _ Ev) as (pre & f & w & rest & E & Hp & Hw).
           rewrite E in *.
           rewrite (copy_weights_invalid pre f w rest [] Hp Hw) in *.
           inversion H. split; auto. right.
           exists pre, f, w, rest, ps. auto.
    + inversion H. split; auto. left. split; auto. discriminate.
Qed.

(** X6.  Once learning has started the configuration is locked:
    [defineConfig] fails with the invalid-state error, and changes
    nothing, in every reachable state that holds a document, and right
    after any [addDoc] call that got past its state checks, whether that
    call succeeded or failed. *)
Theorem defineConfig_locked :
  forall st cfg, reachable Math_log st ->
  (own (documents st) <> [] ->
   defineConfig st cfg = (st, Throw InvalidState)) /\
  (forall doc id,
     config st <> None -> consolidated st = false ->
     let st' := fst (addDoc st doc id) in
     defineConfig st' cfg = (st', Throw InvalidState)).
Proof.
  intros st cfg Hr. split.
  - intros Hd. unfold defineConfig.
    rewrite (reachable_Started Math_log st Hr); auto.
  - intros doc id Hc Hn st'.
    assert (Hl : learned st' = true).
    { unfold st', addDoc. destruct (config st) as [c|]; [|congruence].
      rewrite Hn. destruct (get _ id); auto.
      destruct (addDoc_fields _ _ _ _) as [st3 r] eqn:E.
      apply addDoc_fields_frame in E.
      destruct E as (_ & _ & _ & E & _).
      destruct r; simpl; rewrite E; reflexivity. }
    unfold defineConfig. rewrite Hl. reflexivity.
Qed.

(** ** Failed calls *)


(** ** Induction over the calls *)

Lemma reachable_invariant (P : engine -> Prop) :
  P init ->
  (forall st c, well_formed_call c = true -> Inv st -> P st ->
                P (fst (step Math_log st c))) ->
  forall st, reachable Math_log st -> P st.
Proof.
  intros H0 Hs st [cs [Hw E]]. subst st.
  assert (G : forall cs st0, forallb well_formed_call cs = true ->
                             Inv st0 -> P st0 -> P (run Math_log st0 cs)).
  { clear cs Hw. induction cs as [|c cs IH]; intros st0 Hw Hi Hp; simpl; auto.
    simpl in Hw. apply andb_true_iff in Hw. destruct Hw as [Hc Hw].
    apply IH; auto. apply step_Inv; auto. }
  apply G; auto. apply Inv_init.
Qed.

Lemma consistent_init : IdxInv init.
Proof. split; reflexivity. Qed.

Lemma built_invariant (P : engine -> Prop) :
  P init ->
  (forall st c, no_import c = true -> Inv st -> IdxInv st -> P st ->
                P (fst (step Math_log st c))) ->
  forall st, built Math_log st -> P st.
Proof.
  intros H0 Hs st [cs [Hw E]]. subst st.
  assert (G : forall cs st0, forallb no_import cs = true ->
                             Inv st0 -> IdxInv st0 -> P st0 ->
                             P (run Math_log st0 cs)).
  { clear cs Hw. induction cs as [|c cs IH]; intros st0 Hw Hi Hx Hp; simpl; auto.
    simpl in Hw. apply andb_true_iff in Hw. destruct Hw as [Hc Hw].
    apply IH; auto.
    - apply step_Inv; auto. destruct c; auto; discriminate.
    - apply step_IdxInv; auto. }
  apply G; auto. apply Inv_init. apply consistent_init.
Qed.

Lemma addDoc_frame st doc id :
  let s := fst (addDoc st doc id) in
  pTasks s = pTasks st /\ pTaskCount s = pTaskCount st /\ flds s = flds st /\
  idf s = idf st /\ consolidated s = consolidated st /\ config s = config st.
Proof.
  unfold addDoc. destruct (config st) eqn:Ec; [|simpl; conjs].
  destruct (consolidated st) eqn:En; [simpl; conjs|].
  destruct (get _ id); [|simpl; conjs|simpl; conjs].
  destruct (addDoc_fields _ _ _ _) as [st3 r] eqn:E.
  apply addDoc_fields_frame in E.
  destruct E as (E1 & E2 & E3 & E4 & E5 & E6 & E7 & E8).
  destruct r; simpl in *; conjs; congruence.
Qed.

(** The IDF table is empty until [consolidate] succeeds. *)
Lemma idf_empty st :
  reachable Math_log st -> consolidated st = false -> idf st = [].
Proof.
  intros Hr. revert st Hr.
  apply (reachable_invariant
           (fun st => consolidated st = false -> idf st = []));
    [reflexivity|].
  intros st c _ _ IH. destruct c; simpl.
  - destruct (definePrepTasks_data st tasks field)
      as (_ & _ & E1 & _ & E2 & _). rewrite E1, E2. exact IH.
  - destruct (defineConfig_frame st cfg)
      as (_ & _ & _ & _ & _ & E1 & _ & E2 & _). rewrite E1, E2. exact IH.
  - destruct (addDoc_frame st doc id) as (_ & _ & _ & E1 & E2 & _).
    rewrite E1, E2. exact IH.
  - unfold consolidate. destruct (totalDocs st <? 3); [exact IH|].
    destruct (config st); [simpl; discriminate|exact IH].
  - rewrite search_state. exact IH.
  - reflexivity.
  - exact IH.
  - destruct input as [|[| | |[|c] [|s] [|d] [|i]]]; simpl; auto.
Qed.

(** ** Snapshots, written and read back *)

Lemma json_num_plain v : plain v = true -> json_num v = v.
Proof.
  destruct v as [f|]; simpl; auto.
  intros H. apply andb_true_iff in H. destruct H as [Hf Hz]. rewrite Hf.
  destruct (PrimFloat.is_zero f); auto.
  simpl in Hz. apply FloatAxioms.Leibniz.eqb_spec in Hz. subst f. reflexivity.
Qed.

Lemma json_nums_plain o : plain_nums o = true -> json_nums o = o.
Proof.
  unfold plain_nums, json_nums.
  induction o as [|[t v] o IH]; simpl; auto.
  intros H. apply andb_true_iff in H. destruct H as [Hv H].
  rewrite (json_num_plain _ Hv), IH; auto.
Qed.

Lemma json_documents_plain (docs : props document) :
  forallb (fun kv => plain_nums (freq (snd kv)) && plain (doc_length (snd kv)))
    docs = true ->
  map (fun kv => (fst kv, json_document (snd kv))) docs = docs.
Proof.
  induction docs as [|[id [fr len]] docs IH]; simpl; auto.
  intros H. apply andb_true_iff in H. destruct H as [Hd H].
  apply andb_true_iff in Hd. destruct Hd as [Hfr Hlen].
  rewrite IH by exact H. unfold json_document. simpl.
  rewrite (json_nums_plain _ Hfr), (json_num_plain _ Hlen). reflexivity.
Qed.

Lemma json_index_arrays (idx : props posting) :
  forallb (fun kv => is_array (snd kv)) idx = true ->
  map (fun kv => (fst kv, Ids (snd kv))) (json_index idx) = idx.
Proof.
  induction idx as [|[t [l|f]] idx IH]; simpl; auto; [|discriminate].
  intros H. rewrite IH; auto.
Qed.

Lemma writable_snapshot st :
  writable st = true ->
  exists c,
    config st = Some c /\
    exportJSON st
    = (st, Return (ArrayOf4 (IsObject c)
                     (IsObject (mkStats (totalCorpusLength st) (totalDocs st)))
                     (IsObject (own (documents st)))
                     (IsObject (json_index (own (invertedIdx st)))))) /\
    map (fun kv => (fst kv, Ids (snd kv))) (json_index (own (invertedIdx st)))
    = own (invertedIdx st).
Proof.
  unfold writable. intros H.
  apply andb_true_iff in H. destruct H as [H Hi].
  apply andb_true_iff in H. destruct H as [H Hd].
  apply andb_true_iff in H. destruct H as [Hc Ht].
  destruct (config st) as [c|] eqn:Ec; [|discriminate].
  apply andb_true_iff in Hc. destruct Hc as [Hc Hk].
  apply andb_true_iff in Hc. destruct Hc as [Hc Hb].
  apply andb_true_iff in Hc. destruct Hc as [Hw Hk1].
  exists c. split; auto. split; [|apply json_index_arrays; auto].
  unfold exportJSON. rewrite Ec.
  rewrite (json_num_plain _ Ht), (json_documents_plain _ Hd).
  unfold json_config.
  rewrite (json_nums_plain _ Hw), (json_num_plain _ Hk1),
    (json_num_plain _ Hb), (json_num_plain _ Hk).
  destruct c as [ws [p1 p2 p3]]. reflexivity.
Qed.

(** X8.  A snapshot round trip restores the learned data.  When the
    engine [st] has a configuration, all its numbers are finite and none is
    -0, and its index holds only arrays, importing the text [exportJSON]
    returns into any engine [st0] succeeds and leaves in [st0] the
    configuration, the documents (same ids, order, frequencies and lengths),
    the index and the two totals of [st]; the pipelines of [st0] are kept, the
    IDF table is empty, the average length is 0, learning is marked as
    started and consolidation as not done. *)
Theorem exportJSON_importJSON :
  forall st st0, writable st = true ->
  exists j,
    exportJSON st = (st, Return j) /\
    importJSON st0 (Text j)
    = ({| pTasks := pTasks st0; pTaskCount := pTaskCount st0;
          flds := flds st0;
          documents := mkObject true (own (documents st));
          invertedIdx := mkObject true (own (invertedIdx st));
          idf := [];
          learned := true; consolidated := false;
          totalDocs := totalDocs st;
          totalCorpusLength := totalCorpusLength st;
          avgCorpusLength := 0%float;
          config := config st |}, Return true).
Proof.
  intros st st0 H.
  destruct (writable_snapshot st H) as (c & Ec & Ex & Ei).
  eexists. split; [exact Ex|].
  simpl. rewrite Ei, Ec. reflexivity.
Qed.

(** X9.  The snapshot of an engine without configuration cannot be read
    back: [exportJSON] succeeds, and [importJSON] rejects that text as an
    invalid argument, leaving the importing engine unchanged. *)
Theorem unconfigured_snapshot_rejected :
  forall st st0, config st = None ->
  exists j,
    exportJSON st = (st, Return j) /\
    importJSON st0 (Text j) = (st0, Throw InvalidArgument).
Proof.
  intros st st0 H. eexists. split; [reflexivity|].
  simpl. rewrite H. reflexivity.
Qed.



Lemma term_score_own s s' id t :
  own (documents s) = own (documents s') -> idf s = idf s' ->
  term_score s id t = term_score s' id t.
Proof.
  intros Hd Hi. unfold term_score, get. rewrite Hd, Hi.
  destruct (lookup id (own (documents s'))); auto.
  destruct (inherits (documents s) && on_prototype id);
    destruct (inherits (documents s') && on_prototype id); reflexivity.
Qed.

Lemma score_ids_own s s' t ids : forall results,
  own (documents s) = own (documents s') -> idf s = idf s' ->
  score_ids s t ids results = score_ids s' t ids results.
Proof.
  induction ids as [|id ids IH]; intros results Hd Hi; simpl; auto.
  rewrite (term_score_own s s' id t Hd Hi).
  destruct (term_score s' id t); auto.
Qed.

Lemma visited_own (idx idx' : object posting) t :
  own idx = own idx' -> on_prototype t = false ->
  visited idx t = visited idx' t.
Proof.
  intros Ho Hp. unfold visited, get. rewrite Ho, Hp, !andb_false_r.
  reflexivity.
Qed.

Lemma score_tokens_own s s' tkns : forall results,
  own (documents s) = own (documents s') ->
  own (invertedIdx s) = own (invertedIdx s') -> idf s = idf s' ->
  forallb (fun t => negb (on_prototype t)) tkns = true ->
  score_tokens s tkns results = score_tokens s' tkns results.
Proof.
  induction tkns as [|t tkns IH]; intros results Hd Hx Hi Hp; simpl; auto.
  simpl in Hp. apply andb_true_iff in Hp. destruct Hp as [Ht Hp].
  apply negb_true_iff in Ht.
  rewrite (visited_own _ _ t Hx Ht), (score_ids_own s s' t _ results Hd Hi).
  destruct (score_ids s' t _ results); auto.
Qed.

Lemma search_own s s' str limit :
  pTasks s = pTasks s' -> pTaskCount s = pTaskCount s' -> flds s = flds s' ->
  consolidated s = consolidated s' ->
  own (documents s) = own (documents s') ->
  own (invertedIdx s) = own (invertedIdx s') -> idf s = idf s' ->
  (forall tkns, prepareInput s' (PText str) "search" = Return tkns ->
                forallb (fun t => negb (on_prototype t)) (tokens_of tkns)
                = true) ->
  snd (search s (String_ str) limit) = snd (search s' (String_ str) limit).
Proof.
  intros P1 P2 P3 Hc Hd Hx Hi Hp. unfold search. rewrite Hc.
  destruct (negb (consolidated s')); auto.
  assert (E : prepareInput s (PText str) "search"
              = prepareInput s' (PText str) "search").
  { unfold prepareInput, tasks_for, count_for. rewrite P1, P2, P3.
    reflexivity. }
  rewrite E.
  destruct (prepareInput s' (PText str) "search") as [tkns|e]; auto.
  rewrite (score_tokens_own s s' (tokens_of tkns) []); auto.
  destruct (score_tokens s' (tokens_of tkns) []); reflexivity.
Qed.

(** X11.  Learning can be moved to another engine before consolidation.
    For a reachable, not yet consolidated engine [st] with at least 3
    documents whose snapshot loses nothing, and an engine [st0] with the
    same pipelines: consolidating [st0] after it imported the snapshot of
    [st] succeeds and yields the same documents, index, IDF table and
    average length as consolidating [st] itself, and [search] then returns
    the same result on both for every query none of whose tokens is the name
    of a member of [Object.prototype]. *)
Theorem snapshot_then_consolidate :
  forall st st0,
  reachable Math_log st -> consolidated st = false ->
  writable st = true -> 3 <= totalDocs st ->
  pTasks st0 = pTasks st -> pTaskCount st0 = pTaskCount st ->
  flds st0 = flds st ->
  exists j s1 s2,
    exportJSON st = (st, Return j) /\
    consolidate Math_log st = (s1, Return true) /\
    consolidate Math_log (fst (importJSON st0 (Text j))) = (s2, Return true) /\
    own (documents s2) = own (documents s1) /\
    own (invertedIdx s2) = own (invertedIdx s1) /\
    idf s2 = idf s1 /\
    avgCorpusLength s2 = avgCorpusLength s1 /\
    forall s limit,
      (forall tkns, prepareInput st (PText s) "search" = Return tkns ->
                    forallb (fun t => negb (on_prototype t)) (tokens_of tkns)
                    = true) ->
      snd (search s2 (String_ s) limit) = snd (search s1 (String_ s) limit).
Proof.
  intros st st0 Hr Hn Hw H3 P1 P2 P3.
  destruct (writable_snapshot st Hw) as (c & Ec & Ex & Ex').
  match type of Ex with _ = (_, Return ?x) => set (j := x) in * end.
  assert (Ei : importJSON st0 (Text j)
               = ({| pTasks := pTasks st0; pTaskCount := pTaskCount st0;
                     flds := flds st0;
                     documents := mkObject true (own (documents st));
                     invertedIdx := mkObject true (own (invertedIdx st));
                     idf := [];
                     learned := true; consolidated := false;
                     totalDocs := totalDocs st;
                     totalCorpusLength := totalCorpusLength st;
                     avgCorpusLength := 0%float;
                     config := config st |}, Return true)).
  { unfold j. simpl. rewrite Ex', Ec. reflexivity. }
  exists j, (consolidated_state Math_log st c),
    (consolidated_state Math_log (fst (importJSON st0 (Text j))) c).
  split; [exact Ex|].
  split; [apply consolidate_succeeds; auto|].
  rewrite Ei. simpl fst.
  split; [apply consolidate_succeeds; [exact H3|exact Ec]|].
  assert (Hidf : idf st = []) by (apply idf_empty; auto).
  unfold consolidated_state. simpl. rewrite Hidf.
  split; [reflexivity|]. split; [reflexivity|]. split; [reflexivity|].
  split; [reflexivity|].
  intros s limit Hp. apply search_own; try reflexivity; simpl; auto.
Qed.

(** ** Consolidating twice *)




(** ** The counter and the store *)

Lemma addDoc_Sized st doc id : Sized st -> Sized (fst (addDoc st doc id)).
Proof.
  intros Hs. unfold addDoc.
  destruct (config st) as [c|]; [|exact Hs].
  destruct (consolidated st); [exact Hs|].
  destruct (get (documents (set_learned st true)) id) eqn:Eg;
    [|exact Hs|exact Hs].
  destruct (addDoc_fields _ _ _ _) as [st3 r] eqn:E.
  pose proof (addDoc_fields_frame _ _ _ _ _ _ E) as (_ & _ & Ht & _).
  apply addDoc_fields_keys in E.
  - simpl in E, Ht.
    assert (Hk : keys (assign id (mkDoc [] (Num 0)) (own (documents st)))
                 = keys (own (documents st)) ++ [id]).
    { apply keys_assign_absent. apply lookup_None.
      unfold get in Eg. simpl in Eg.
      destruct (lookup id (own (documents st))); [discriminate|reflexivity]. }
    unfold Sized in *. rewrite Hk in E.
    destruct r; simpl; rewrite E, length_app, Ht; simpl; lia.
  - simpl. apply In_keys_assign. auto.
Qed.

Lemma consolidate_keys st :
  Inv st ->
  keys (own (documents (fst (consolidate Math_log st))))
  = keys (own (documents st)) /\
  totalDocs (fst (consolidate Math_log st)) = totalDocs st /\
  totalCorpusLength (fst (consolidate Math_log st)) = totalCorpusLength st /\
  forall id d,
    lookup id (own (documents (fst (consolidate Math_log st)))) = Some d ->
    exists d0, lookup id (own (documents st)) = Some d0 /\
               doc_length d = doc_length d0.
Proof.
  intros Hi. unfold consolidate.
  destruct (totalDocs st <? 3); [simpl; conjs; eauto|].
  destruct (config st); [|simpl; conjs; eauto]. simpl.
  rewrite (consolidate_documents_map _ _ _ _ (inv_documents _ Hi)
             (inv_freq _ Hi)).
  conjs.
  - apply (keys_map_values (fun kv => consolidated_document _ _ _ (snd kv))).
  - intros id d. rewrite lookup_map_values.
    destruct (lookup id (own (documents st))) as [d0|]; [|discriminate].
    simpl. intros E. inversion E. eauto.
Qed.

Lemma step_Sized st c :
  no_import c = true -> Inv st -> Sized st ->
  Sized (fst (step Math_log st c)).
Proof.
  intros Hc Hi Hs. destruct c; simpl; try discriminate.
  - destruct (definePrepTasks_data st tasks field)
      as (E1 & _ & _ & _ & _ & E2 & _). unfold Sized. rewrite E1, E2. exact Hs.
  - destruct (defineConfig_frame st cfg)
      as (_ & _ & _ & E1 & _ & _ & _ & _ & E2 & _).
    unfold Sized. rewrite E1, E2. exact Hs.
  - apply addDoc_Sized, Hs.
  - destruct (consolidate_keys st Hi) as (E1 & E2 & _).
    unfold Sized. rewrite E1, E2. exact Hs.
  - rewrite search_state. exact Hs.
  - unfold Sized. simpl. lia.
  - exact Hs.
Qed.

(** X13.  On an engine built without [importJSON], the document counter
    is never negative and never exceeds the number of documents in the
    store. *)
Theorem totalDocs_bounded :
  forall st, built Math_log st ->
  0 <= totalDocs st <= Z.of_nat (List.length (own (documents st))).
Proof.
  intros st Hb.
  assert (H : Sized st).
  { revert st Hb. apply built_invariant.
    - unfold Sized. simpl. lia.
    - intros st c Hc Hi _ Hs. apply step_Sized; auto. }
  unfold Sized, keys in H. rewrite length_map in H. exact H.
Qed.

(** ** Lengths *)

Lemma binary_round_aux_has_sign s m e l :
  has_sign s (binary_round_aux prec emax s m e l).
Proof.
  unfold binary_round_aux.
  destruct (shr_fexp prec emax m e l) as [mrs e'].
  destruct (shr_fexp prec emax _ e' loc_Exact) as [mrs' e''].
  destruct (shr_m mrs'); [exact eq_refl| |exact I].
  destruct (e'' <=? emax - prec); exact eq_refl.
Qed.

Lemma binary_normalize_nonneg m e :
  0 <= m -> has_sign false (binary_normalize prec emax m e false).
Proof.
  intros H. destruct m as [|p|p]; [exact eq_refl| |lia].
  unfold binary_normalize, binary_round. destruct (shl_align _ _ _) as [mz ez].
  apply binary_round_aux_has_sign.
Qed.

Lemma SFadd_nonneg x y :
  has_sign false x -> has_sign false y ->
  has_sign false (SFadd prec emax x y).
Proof.
  destruct x as [sx|sx| |sx mx ex]; destruct y as [sy|sy| |sy my ey];
    simpl; intros Hx Hy; subst; try exact eq_refl; try exact I.
  apply binary_normalize_nonneg. simpl. lia.
Qed.

Lemma SFmul_nonneg x y :
  has_sign false x -> has_sign false y ->
  has_sign false (SFmul prec emax x y).
Proof.
  destruct x as [sx|sx| |sx mx ex]; destruct y as [sy|sy| |sy my ey];
    simpl; intros Hx Hy; subst; try exact eq_refl; try exact I.
  apply binary_round_aux_has_sign.
Qed.

Lemma float_of_nat_nonneg n : has_sign false (Prim2SF (float_of_nat n)).
Proof.
  unfold float_of_nat. rewrite of_uint63_spec.
  apply binary_normalize_nonneg. apply Uint63.to_Z_bounded.
Qed.

Lemma weighted_length_nonneg n w :
  has_sign false (Prim2SF (float_of_nat n * Math_abs w)).
Proof.
  rewrite mul_spec. apply SFmul_nonneg.
  - apply float_of_nat_nonneg.
  - unfold Math_abs. rewrite abs_spec. apply SFabs_sign.
Qed.

Lemma add_nonneg (x y : float) :
  has_sign false (Prim2SF x) -> has_sign false (Prim2SF y) ->
  has_sign false (Prim2SF (x + y)).
Proof. intros Hx Hy. rewrite add_spec. apply SFadd_nonneg; auto. Qed.

Lemma updateFreq_length st id text w fr field fr' idx' len :
  updateFreq st id text w fr field = (fr', idx', Return len) ->
  has_sign false (Prim2SF len).
Proof.
  unfold updateFreq. destruct (prepareInput st text field); [|discriminate].
  destruct (index_tokens _ _ _ _ _) as [[fr1 idx1] [u|e]]; [|discriminate].
  intros E. inversion E. apply weighted_length_nonneg.
Qed.

Lemma lookup_assign {A : Type} (l : props A) k v k' :
  lookup k' (assign k v l) = if String.eqb k k' then Some v else lookup k' l.
Proof.
  destruct (String.eqb k k') eqn:E.
  - apply String.eqb_eq in E. subst. apply lookup_assign_same.
  - apply String.eqb_neq in E. apply lookup_assign_other, E.
Qed.

Lemma addDoc_fields_NonNeg ws doc id : forall st st' r,
  addDoc_fields ws doc id st = (st', r) -> NonNeg st -> NonNeg st'.
Proof.
  induction ws as [|[field weight] ws IH]; intros st st' r E Hn; simpl in E.
  - inversion E. subst. exact Hn.
  - destruct (lookup field doc) as [text|]; [|inversion E; subst; exact Hn].
    destruct (lookup id (own (documents st))) as [d|] eqn:Ed;
      [|inversion E; subst; exact Hn].
    destruct Hn as [Ht Hd].
    destruct (updateFreq st id (PText text) weight (freq d) field)
      as [[fr idx] [len|e]] eqn:Eu.
    + apply updateFreq_length in Eu. apply IH in E; auto. split; simpl.
      * apply add_nonneg; auto.
      * intros id' d'. rewrite lookup_assign.
        destruct (String.eqb id id'); [|apply Hd].
        intros E'. inversion E'. unfold nonneg. simpl.
        apply add_nonneg; auto. apply (Hd id d Ed).
    + inversion E. subst. split; simpl; auto.
      intros id' d'. rewrite lookup_assign.
      destruct (String.eqb id id'); [|apply Hd].
      intros E'. inversion E'. apply (Hd id d Ed).
Qed.

Lemma addDoc_NonNeg st doc id : NonNeg st -> NonNeg (fst (addDoc st doc id)).
Proof.
  intros Hn. unfold addDoc.
  destruct (config st) as [c|]; [|exact Hn].
  destruct (consolidated st); [exact Hn|].
  destruct (get (documents (set_learned st true)) id);
    [|exact Hn|exact Hn].
  destruct (addDoc_fields _ _ _ _) as [st3 r] eqn:E.
  apply addDoc_fields_NonNeg in E.
  - destruct r; exact E.
  - destruct Hn as [Ht Hd]. split; simpl; auto.
    intros id' d'. rewrite lookup_assign.
    destruct (String.eqb id id'); [|apply Hd].
    intros E'. inversion E'. exact eq_refl.
Qed.

Lemma step_NonNeg st c :
  no_import c = true -> Inv st -> NonNeg st ->
  NonNeg (fst (step Math_log st c)).
Proof.
  intros Hc Hi Hn. destruct c; simpl; try discriminate.
  - destruct (definePrepTasks_data st tasks field)
      as (E1 & _ & _ & _ & _ & _ & E2 & _).
    unfold NonNeg. rewrite E1, E2. exact Hn.
  - destruct (defineConfig_frame st cfg)
      as (_ & _ & _ & E1 & _ & _ & _ & _ & _ & E2 & _).
    unfold NonNeg. rewrite E1, E2. exact Hn.
  - apply addDoc_NonNeg, Hn.
  - destruct (consolidate_keys st Hi) as (_ & _ & E2 & E3).
    destruct Hn as [Ht Hd]. split; [rewrite E2; exact Ht|].
    intros id d Hl. destruct (E3 id d Hl) as (d0 & Hl0 & El).
    unfold nonneg. rewrite El. apply (Hd id d0 Hl0).
  - rewrite search_state. exact Hn.
  - split; [exact eq_refl|]. simpl. discriminate.
  - exact Hn.
Qed.

(** X14.  Lengths can not be negative.  On an engine built without
    [importJSON], whatever the weights (negative ones included), the length
    of every stored document and the total corpus length are never below
    zero. *)
Theorem lengths_not_negative :
  forall st, built Math_log st ->
  (ToNumber (totalCorpusLength st) <? 0)%float = false /\
  forall id d, lookup id (own (documents st)) = Some d ->
               (ToNumber (doc_length d) <? 0)%float = false.
Proof.
  intros st Hb.
  assert (H : NonNeg st).
  { revert st Hb. apply built_invariant.
    - split; [exact eq_refl|]. simpl. discriminate.
    - intros st c Hc Hi _ Hn. apply step_NonNeg; auto. }
  destruct H as [Ht Hd].
  assert (G : forall x, has_sign false (Prim2SF x) -> (x <? 0)%float = false).
  { intros x Hx. rewrite ltb_spec, Prim2SF_zero.
    apply nonneg_not_below_zero, Hx. }
  split; [apply G, Ht|]. intros id d Hl. apply G, (Hd id d Hl).
Qed.

(** ** addDoc *)

Lemma addDoc_fields_inherits ws doc id : forall st st' r,
  addDoc_fields ws doc id st = (st', r) ->
  inherits (documents st') = inherits (documents st).
Proof.
  induction ws as [|[field weight] ws IH]; intros st st' r E; simpl in E.
  - inversion E. reflexivity.
  - destruct (lookup field doc) as [text|]; [|inversion E; reflexivity].
    destruct (lookup id (own (documents st))) as [d|];
      [|inversion E; reflexivity].
    destruct (updateFreq st id (PText text) weight (freq d) field)
      as [[fr idx] [len|e]].
    + apply IH in E. exact E.
    + inversion E. reflexivity.
Qed.

(** The store of an engine built without [importJSON] has no prototype. *)
Lemma built_documents st : built Math_log st -> inherits (documents st) = false.
Proof.
  revert st. apply built_invariant; [reflexivity|].
  intros st c Hc Hi _ IH. destruct c; simpl; try discriminate.
  - destruct (definePrepTasks_data st tasks field) as (E1 & _).
    rewrite E1. exact IH.
  - destruct (defineConfig_frame st cfg) as (_ & _ & _ & E1 & _).
    rewrite E1. exact IH.
  - unfold addDoc. destruct (config st); [|exact IH].
    destruct (consolidated st); [exact IH|].
    destruct (get _ id); [|exact IH|exact IH].
    destruct (addDoc_fields _ _ _ _) as [st3 r] eqn:E.
    apply addDoc_fields_inherits in E. simpl in E.
    destruct r; simpl; congruence.
  - unfold consolidate. destruct (totalDocs st <? 3); [exact IH|].
    destruct (config st); exact IH.
  - rewrite search_state. exact IH.
  - reflexivity.
  - exact IH.
Qed.

Lemma prepared_pipeline st st' ws doc :
  pTasks st = pTasks st' -> pTaskCount st = pTaskCount st' ->
  flds st = flds st' ->
  prepared st ws doc = prepared st' ws doc.
Proof.
  intros P1 P2 P3. induction ws as [|[field weight] ws IH]; simpl; auto.
  unfold prepareInput, tasks_for, count_for.
  rewrite P1, P2, P3, IH. reflexivity.
Qed.

Lemma index_tokens_tally id w tkns : forall fr idx fr' idx',
  index_tokens id w tkns fr idx = (fr', idx', Return tt) ->
  forall t, lookup t fr' = tally w t tkns (lookup t fr).
Proof.
  induction tkns as [|t0 tkns IH]; intros fr idx fr' idx' E t; simpl in *.
  - inversion E. reflexivity.
  - destruct (index_token id w t0 fr idx) as [[fr1 idx1] [u|e]] eqn:E0;
      [|discriminate].
    rewrite (IH _ _ _ _ E t). f_equal.
    unfold index_token in E0.
    destruct (lookup t0 fr) as [old|] eqn:El.
    + inversion E0. rewrite lookup_assign.
      destruct (String.eqb t0 t) eqn:Et; auto.
      apply String.eqb_eq in Et. subst. rewrite El. reflexivity.
    + assert (Ef : fr1 = assign t0 w fr).
      { destruct (get idx t0) as [|[l|f]|f]; try (inversion E0; reflexivity).
        destruct (String.eqb f "__proto__"); inversion E0; reflexivity. }
      rewrite Ef, lookup_assign.
      destruct (String.eqb t0 t) eqn:Et; auto.
      apply String.eqb_eq in Et. subst. rewrite El. reflexivity.
Qed.

Lemma consistent_length pre id fr len len' idx :
  consistent (pre ++ [(id, mkDoc fr len)]) idx ->
  consistent (pre ++ [(id, mkDoc fr len')]) idx.
Proof.
  intros [Hi Hl]. split; [assumption|]. intros t.
  rewrite Hl. unfold posting_for. rewrite !containing_last. reflexivity.
Qed.

Lemma addDoc_fields_prepared doc id pre ws : forall st fr0 len0,
  own (documents st) = pre ++ [(id, mkDoc fr0 len0)] ->
  ~ In id (keys pre) ->
  consistent (own (documents st)) (invertedIdx st) ->
  match prepared st ws doc with
  | Return fs =>
      exists st' fr' len',
        addDoc_fields ws doc id st = (st', Return tt) /\
        own (documents st') = pre ++ [(id, mkDoc fr' len')] /\
        (forall t, lookup t fr' = tally_fields fs t (lookup t fr0)) /\
        ToNumber len' = total_length fs (ToNumber len0) /\
        ToNumber (totalCorpusLength st')
        = total_length fs (ToNumber (totalCorpusLength st))
  | Throw e => snd (addDoc_fields ws doc id st) = Throw e
  end.
Proof.
  induction ws as [|[field weight] ws IH]; intros st fr0 len0 Hd Hpre Hc;
    simpl.
  - exists st, fr0, len0. conjs.
  - destruct (lookup field doc) as [text|]; [|reflexivity].
    rewrite Hd, lookup_middle by assumption.
    unfold updateFreq.
    destruct (prepareInput st (PText text) field) as [v|e]; [|reflexivity].
    destruct (index_tokens id weight (tokens_of v) (freq (mkDoc fr0 len0))
                (invertedIdx st)) as [[fr1 idx1] r] eqn:E.
    simpl freq in *.
    destruct (index_tokens_consistent pre id len0 _ _ _ _ _ _ _ E)
      as [-> Hc1]; [rewrite <- Hd; exact Hc|].
    pose proof (index_tokens_tally _ _ _ _ _ _ _ E) as Ht.
    match goal with
    | |- context [addDoc_fields ws doc id ?s] => set (st2 := s)
    end.
    assert (Hd2 : own (documents st2)
                  = pre ++ [(id, mkDoc fr1
                       (Num (ToNumber len0
                             + float_of_nat (List.length (tokens_of v))
                               * Math_abs (ToNumber weight))%float))]).
    { unfold st2. simpl. rewrite Hd, assign_middle by assumption.
      reflexivity. }
    assert (Hc2 : consistent (own (documents st2)) (invertedIdx st2)).
    { rewrite Hd2. unfold st2. simpl.
      apply (consistent_length pre id fr1 len0), Hc1. }
    specialize (IH st2 _ _ Hd2 Hpre Hc2).
    rewrite (prepared_pipeline st2 st ws doc eq_refl eq_refl eq_refl) in IH.
    destruct (prepared st ws doc) as [fs|e]; [|exact IH].
    destruct IH as (st' & fr' & len' & E1 & E2 & E3 & E4 & E5).
    exists st', fr', len'. split; [exact E1|]. split; [exact E2|].
    split; [|split].
    + intros t. rewrite E3, Ht. reflexivity.
    + rewrite E4. reflexivity.
    + rewrite E5. reflexivity.
Qed.

Lemma addDoc_prepared st doc id c :
  built Math_log st -> config st = Some c -> consolidated st = false ->
  lookup id (own (documents st)) = None ->
  match prepared st (fldWeights c) doc with
  | Return fs =>
      exists st' fr len,
        addDoc st doc id = (st', Return (totalDocs st + 1)) /\
        totalDocs st' = totalDocs st + 1 /\
        learned st' = true /\
        own (documents st') = own (documents st) ++ [(id, mkDoc fr len)] /\
        (forall t, lookup t fr = frequency fs t) /\
        ToNumber len = total_length fs 0 /\
        ToNumber (totalCorpusLength st')
        = total_length fs (ToNumber (totalCorpusLength st))
  | Throw e => snd (addDoc st doc id) = Throw e
  end.
Proof.
  intros Hb Hc Hn Hl.
  destruct (built_IdxInv Math_log st Hb) as [Hi [Hx1 Hx2]].
  pose proof (built_documents st Hb) as Hp.
  pose proof (proj1 (lookup_None _ _) Hl) as Hnot.
  set (st2 := set_documents (set_learned st true)
                (put (documents (set_learned st true)) id (mkDoc [] (Num 0)))).
  assert (Hd2 : own (documents st2)
                = own (documents st) ++ [(id, mkDoc [] (Num 0))]).
  { unfold st2. simpl. apply assign_absent, Hnot. }
  assert (Hc2 : consistent (own (documents st2)) (invertedIdx st2)).
  { rewrite Hd2. unfold st2. simpl. split; [assumption|]. intros t.
    rewrite Hx2. unfold posting_for. rewrite containing_last.
    unfold mentions. simpl. rewrite app_nil_r. reflexivity. }
  pose proof (addDoc_fields_prepared doc id _ (fldWeights c) st2 _ _
                Hd2 Hnot Hc2) as H.
  rewrite (prepared_pipeline st2 st _ doc eq_refl eq_refl eq_refl) in H.
  assert (Ea : addDoc st doc id
               = match addDoc_fields (fldWeights c) doc id st2 with
                 | (st3, Throw e) => (st3, Throw e)
                 | (st3, Return _) =>
                     (set_totalDocs st3 (totalDocs st3 + 1),
                      Return (totalDocs st3 + 1))
                 end).
  { unfold addDoc. rewrite Hc, Hn. unfold get. simpl.
    rewrite Hl, Hp. reflexivity. }
  destruct (prepared st (fldWeights c) doc) as [fs|e].
  - destruct H as (st' & fr' & len' & E1 & E2 & E3 & E4 & E5).
    pose proof (addDoc_fields_frame _ _ _ _ _ _ E1)
      as (_ & _ & F3 & F4 & _).
    simpl in F3, F4.
    exists (set_totalDocs st' (totalDocs st' + 1)), fr', len'.
    rewrite Ea, E1, F3. simpl. conjs.
  - rewrite Ea. destruct (addDoc_fields _ _ _ _) as [st3 [u|e']];
      simpl in *; [discriminate|inversion H; reflexivity].
Qed.


(** X16.  What a successful [addDoc] stores.  On an unconsolidated engine
    built without [importJSON], for a new id and a document that has every
    configured field (and whose pipelines run), [addDoc] returns the counter
    plus one and appends one document to the store: the frequency of a
    term is its weight in the first field occurrence plus the weight of the
    field for every further occurrence, the fields taken in configuration
    order; the length is the sum over the fields of the number of tokens
    times the magnitude of the weight; the corpus length grows by the same
    amounts; the documents already stored are untouched. *)
Theorem addDoc_stores :
  forall st doc id c fs,
  built Math_log st -> config st = Some c -> consolidated st = false ->
  lookup id (own (documents st)) = None ->
  prepared st (fldWeights c) doc = Return fs ->
  exists st' fr len,
    addDoc st doc id = (st', Return (totalDocs st + 1)) /\
    totalDocs st' = totalDocs st + 1 /\
    learned st' = true /\
    own (documents st') = own (documents st) ++ [(id, mkDoc fr len)] /\
    (forall t, lookup t fr = frequency fs t) /\
    ToNumber len = total_length fs 0 /\
    ToNumber (totalCorpusLength st')
    = total_length fs (ToNumber (totalCorpusLength st)).
Proof.
  intros st doc id c fs Hb Hc Hn Hl Hp.
  pose proof (addDoc_prepared st doc id c Hb Hc Hn Hl) as H.
  rewrite Hp in H. exact H.
Qed.

End Extras.

(** * The scenarios, evaluated *)

Lemma learnt_built : built sample_log learnt.
Proof. exists three_docs. split; reflexivity. Defined.


Lemma learnt_reachable : reachable sample_log learnt.
Proof. exists three_docs. split; reflexivity. Defined.

Lemma learnt_totalDocs : 3 <= totalDocs learnt.
Proof. vm_compute. discriminate. Defined.

(** ** Consolidation on the three documents *)






(** ** Search on the three documents *)



Lemma search_limit_witness :
  exists r,
    snd (search ready (String_ "cat") (Some (-5))) = Return r /\
    (List.length r <= 1)%nat /\ r <> [].
Proof.
  assert (H : snd (search ready (String_ "cat") (Some (-5)))
              = Return [("d1", 0%float)]) by (vm_compute; reflexivity).
  exists [("d1", 0%float)]. split; [exact H|].
  destruct (search_limit ready (String_ "cat") (Some (-5)) _ H)
    as (ranked & _ & _ & _ & _ & Hneg & _).
  split; [exact (Hneg (-5) eq_refl eq_refl) | discriminate].
Defined.

(** C4, as stated, fails: a limit of 0 is falsy, so [limit || 10] is 10 and
    [search( text, 0 )] returns all three matching documents, not at most 1. *)
Lemma search_limit_zero_returns_three :
  exists r,
    snd (search ready (String_ "cat") (Some 0)) = Return r /\
    List.length r = 3%nat.
Proof. eexists. split; [vm_compute; reflexivity|]. reflexivity. Qed.

(** ** The inverted index of the three documents *)

Lemma inverted_index_lists_documents_witness :
  built sample_log learnt /\
  get (invertedIdx learnt) "cat" = Own (Ids ["d1"; "d2"; "d3"]) /\
  get (invertedIdx learnt) "emu" = Undefined.
Proof.
  split; [exact learnt_built|].
  destruct (inverted_index_lists_documents sample_log learnt learnt_built)
    as (Hidx & _).
  rewrite (Hidx "cat"), (Hidx "emu"). vm_compute. split; reflexivity.
Defined.

(** ** Snapshots of the three documents *)

Lemma importJSON_unconsolidated_witness :
  importJSON init (Text snapshot) = (reloaded, Return true) /\
  consolidated ready = true /\
  consolidated reloaded = false /\
  search reloaded (String_ "cat") None = (reloaded, Throw InvalidState).
Proof.
  assert (H : importJSON init (Text snapshot) = (reloaded, Return true))
    by (vm_compute; reflexivity).
  split; [exact H|]. split; [vm_compute; reflexivity|].
  destruct (importJSON_unconsolidated sample_log init (Text snapshot) reloaded H)
    as (_ & _ & Hc & _ & Hs & _).
  split; [exact Hc|]. exact (Hs [] (String_ "cat") None eq_refl).
Defined.

(** ** A failed [addDoc] *)

(** C5 does not hold of [addDoc]: the check for a missing field sits inside
    the loop that indexes the fields, after the document was created.  The
    call fails with [MissingField], and yet the document is in the store
    with the terms of the fields before the missing one, the index lists it,
    the corpus length has grown and learning is marked as started; adding
    the complete document under the same id then fails with [DuplicateId]. *)
Theorem addDoc_missing_field_mutates :
  snd (addDoc configured no_body "d1") = Throw MissingField /\
  own (documents configured) = [] /\
  own (documents (fst (addDoc configured no_body "d1")))
  = [("d1", mkDoc [("cat", Num 2%float); ("dog", Num 2%float)] (Num 4%float))] /\
  own (invertedIdx (fst (addDoc configured no_body "d1")))
  = [("cat", Ids ["d1"]); ("dog", Ids ["d1"])] /\
  totalCorpusLength configured = Num 0%float /\
  totalCorpusLength (fst (addDoc configured no_body "d1")) = Num 4%float /\
  learned configured = false /\
  learned (fst (addDoc configured no_body "d1")) = true /\
  snd (addDoc (fst (addDoc configured no_body "d1"))
         [("title", "cat dog"); ("body", "cat")] "d1")
  = Throw DuplicateId.
Proof. vm_compute. repeat split; reflexivity. Qed.

(** ** A snapshot written and read back *)

(** C9 does not hold: [JSON.parse] makes ordinary objects, which inherit
    the members of [Object.prototype], where the engine's own stores are
    created without a prototype.  The restored engine has the documents, the
    index and the totals of the original, but [addDoc] under the id
    ["constructor"] fails with [DuplicateId] where the original returns 4,
    and a document with the token ["constructor"] fails with a [TypeError]
    where the original returns 4. *)
Theorem restored_addDoc_differs :
  snd (importJSON learnt (Text saved)) = Return true /\
  own (documents restored) = own (documents learnt) /\
  own (invertedIdx restored) = own (invertedIdx learnt) /\
  totalDocs restored = totalDocs learnt /\
  snd (addDoc learnt [("title", "emu"); ("body", "emu")] "constructor")
  = Return 4 /\
  snd (addDoc restored [("title", "emu"); ("body", "emu")] "constructor")
  = Throw DuplicateId /\
  snd (addDoc learnt [("title", "constructor"); ("body", "emu")] "d4")
  = Return 4 /\
  snd (addDoc restored [("title", "constructor"); ("body", "emu")] "d4")
  = Throw TypeError.
Proof. vm_compute. repeat split; reflexivity. Qed.

(** ** An empty task list for one field *)

(** C10 does not hold: for a field with an empty task list [prepareInput]
    takes the field's (empty) array but, the field's count 0 being falsy, the
    default count 1, and calls the missing [pt[ 0 ]]: [addDoc] and [search]
    fail with a [TypeError], which is none of the five documented kinds
    (every definition was accepted: each [definePrepTasks] returned the
    length of its list). *)
Theorem empty_task_list_TypeError :
  snd (step sample_log init (DefinePrepTasks (TaskArray []) (FieldName "body")))
  = Return (VCount 0) /\
  prepareInput empty_body_tasks (PText "cat") "body" = Throw TypeError /\
  snd (step sample_log empty_body_tasks
         (AddDoc [("title", "cat dog"); ("body", "cat")] "d1"))
  = Throw TypeError /\
  snd (step sample_log empty_search_tasks (Search (String_ "cat") None))
  = Throw TypeError /\
  documented TypeError = false.
Proof. vm_compute. repeat split; reflexivity. Qed.

(** ** The further properties, on the scenarios *)


Lemma negative_weight_built : built sample_log negative_weight.
Proof.
  exists [ DefineConfig (CfgObject (Some [("body", ArgNumber (-2)%float)]) None);
           AddDoc [("body", "ab")] "d1" ].
  split; reflexivity.
Defined.

Lemma learnt_writable : writable learnt = true.
Proof. vm_compute. reflexivity. Defined.

Lemma learnt_unconsolidated : consolidated learnt = false.
Proof. vm_compute. reflexivity. Defined.

Lemma prepareInput_applies_tasks_witness :
  reachable sample_log learnt /\
  prepareInput learnt (PText "cat dog") "body" = Return (PTokens ["cat"; "dog"]).
Proof.
  split; [exact learnt_reachable|].
  rewrite (prepareInput_applies_tasks sample_log learnt (PText "cat dog")
             "body" learnt_reachable).
  vm_compute. reflexivity.
Defined.

Lemma defineConfig_accepts_witness :
  learned init = false /\
  [("title", ArgNumber 2%float); ("body", ArgNumber 1%float)] <> [] /\
  NoDup (keys [("title", ArgNumber 2%float); ("body", ArgNumber 1%float)]) /\
  forallb (fun kv => valid_weight (snd kv))
    [("title", ArgNumber 2%float); ("body", ArgNumber 1%float)] = true /\
  defineConfig init title_body
  = (set_config init
       (Some {| fldWeights := [("title", Num 2%float); ("body", Num 1%float)];
                bm25Params := defaultParams |}),
     Return true).
Proof.
  assert (H1 : learned init = false) by reflexivity.
  assert (H2 : [("title", ArgNumber 2%float); ("body", ArgNumber 1%float)]
               <> []) by discriminate.
  assert (H3 : NoDup (keys [("title", ArgNumber 2%float);
                            ("body", ArgNumber 1%float)]))
    by (apply distinct_NoDup; reflexivity).
  assert (H4 : forallb (fun kv => valid_weight (snd kv))
                 [("title", ArgNumber 2%float); ("body", ArgNumber 1%float)]
               = true) by reflexivity.
  split; [exact H1|]. split; [exact H2|]. split; [exact H3|].
  split; [exact H4|].
  exact (proj1 (defineConfig_accepts init _ None H1 H2 H3 H4)).
Defined.

Lemma defineConfig_rejects_witness :
  snd (defineConfig init null_weight) = Throw InvalidArgument /\
  config (fst (defineConfig init null_weight))
  = Some {| fldWeights := [("title", Num 2%float)];
            bm25Params := defaultParams |}.
Proof.
  assert (H : snd (defineConfig init null_weight) = Throw InvalidArgument)
    by reflexivity.
  split; [exact H|].
  destruct (defineConfig_rejects init null_weight InvalidArgument H)
    as [(Hl & _)|_]; [discriminate Hl|].
  vm_compute. reflexivity.
Defined.

Lemma defineConfig_locked_witness :
  reachable sample_log learnt /\
  own (documents learnt) <> [] /\
  defineConfig learnt title_body = (learnt, Throw InvalidState).
Proof.
  assert (H : own (documents learnt) <> []) by (vm_compute; discriminate).
  split; [exact learnt_reachable|]. split; [exact H|].
  exact (proj1 (defineConfig_locked sample_log learnt title_body
                  learnt_reachable) H).
Defined.


Lemma exportJSON_importJSON_witness :
  writable learnt = true /\
  exists j,
    exportJSON learnt = (learnt, Return j) /\
    documents (fst (importJSON init (Text j)))
    = mkObject true (own (documents learnt)) /\
    consolidated (fst (importJSON init (Text j))) = false.
Proof.
  split; [exact learnt_writable|].
  destruct (exportJSON_importJSON learnt init learnt_writable)
    as (j & E1 & E2).
  exists j. split; [exact E1|]. rewrite E2. split; reflexivity.
Defined.

Lemma unconfigured_snapshot_rejected_witness :
  config init = None /\
  exists j,
    exportJSON init = (init, Return j) /\
    importJSON learnt (Text j) = (learnt, Throw InvalidArgument).
Proof.
  split; [reflexivity|].
  exact (unconfigured_snapshot_rejected init learnt eq_refl).
Defined.

Lemma snapshot_then_consolidate_witness :
  reachable sample_log learnt /\ consolidated learnt = false /\
  writable learnt = true /\ 3 <= totalDocs learnt /\
  pTasks configured = pTasks learnt /\
  pTaskCount configured = pTaskCount learnt /\
  flds configured = flds learnt /\
  exists j s1 s2,
    exportJSON learnt = (learnt, Return j) /\
    consolidate sample_log learnt = (s1, Return true) /\
    consolidate sample_log (fst (importJSON configured (Text j)))
    = (s2, Return true) /\
    idf s2 = idf s1 /\
    snd (search s2 (String_ "cat") None) = snd (search s1 (String_ "cat") None).
Proof.
  assert (P1 : pTasks configured = pTasks learnt) by reflexivity.
  assert (P2 : pTaskCount configured = pTaskCount learnt) by reflexivity.
  assert (P3 : flds configured = flds learnt) by reflexivity.
  split; [exact learnt_reachable|]. split; [exact learnt_unconsolidated|].
  split; [exact learnt_writable|]. split; [exact learnt_totalDocs|].
  split; [exact P1|]. split; [exact P2|]. split; [exact P3|].
  destruct (snapshot_then_consolidate sample_log learnt configured
              learnt_reachable learnt_unconsolidated learnt_writable
              learnt_totalDocs P1 P2 P3)
    as (j & s1 & s2 & E1 & E2 & E3 & _ & _ & E4 & _ & E5).
  exists j, s1, s2. split; [exact E1|]. split; [exact E2|].
  split; [exact E3|]. split; [exact E4|].
  apply E5. intros tkns Ht.
  change (Return (PTokens ["cat"]) = Return tkns) in Ht.
  injection Ht as <-. reflexivity.
Defined.


Lemma totalDocs_bounded_witness :
  built sample_log learnt /\
  0 <= totalDocs learnt <= Z.of_nat (List.length (own (documents learnt))).
Proof.
  split; [exact learnt_built|].
  exact (totalDocs_bounded sample_log learnt learnt_built).
Defined.

Lemma lengths_not_negative_witness :
  built sample_log negative_weight /\
  (ToNumber (totalCorpusLength negative_weight) <? 0)%float = false.
Proof.
  split; [exact negative_weight_built|].
  exact (proj1 (lengths_not_negative sample_log negative_weight
                  negative_weight_built)).
Defined.


Lemma addDoc_stores_witness :
  built sample_log learnt /\
  config learnt
  = Some {| fldWeights := [("title", Num 2%float); ("body", Num 1%float)];
            bm25Params := defaultParams |} /\
  consolidated learnt = false /\
  lookup "d4" (own (documents learnt)) = None /\
  prepared learnt [("title", Num 2%float); ("body", Num 1%float)] emu_owl
  = Return emu_owl_fields /\
  exists st' fr len,
    addDoc learnt emu_owl "d4" = (st', Return 4) /\
    lookup "emu" fr = Some (Num 4%float) /\
    ToNumber len = 5%float.
Proof.
  assert (H1 : config learnt
               = Some {| fldWeights := [("title", Num 2%float);
                                        ("body", Num 1%float)];
                         bm25Params := defaultParams |})
    by (vm_compute; reflexivity).
  assert (H2 : lookup "d4" (own (documents learnt)) = None)
    by (vm_compute; reflexivity).
  assert (H3 : prepared learnt [("title", Num 2%float); ("body", Num 1%float)]
                 emu_owl = Return emu_owl_fields)
    by (vm_compute; reflexivity).
  split; [exact learnt_built|]. split; [exact H1|].
  split; [exact learnt_unconsolidated|]. split; [exact H2|].
  split; [exact H3|].
  destruct (addDoc_stores sample_log learnt emu_owl "d4" _ emu_owl_fields
              learnt_built H1 learnt_unconsolidated H2 H3)
    as (st' & fr & len & E1 & _ & _ & _ & E2 & E3 & _).
  exists st', fr, len. split; [|split].
  - rewrite E1. vm_compute. reflexivity.
  - rewrite E2. vm_compute. reflexivity.
  - rewrite E3. vm_compute. reflexivity.
Defined.

Lemma definePrepTasks_per_field_witness :
  [tokenize] <> [] /\
  snd (definePrepTasks init (TaskArray [Some tokenize]) (FieldName "title"))
  = Return 1%nat /\
  prepareInput
    (fst (definePrepTasks init (TaskArray [Some tokenize]) (FieldName "title")))
    (PText "cat dog") "body"
  = prepareInput init (PText "cat dog") "body".
Proof.
  assert (H : [tokenize] <> []) by discriminate.
  split; [exact H|].
  destruct (definePrepTasks_per_field init [tokenize] "title" H)
    as [(E1 & _ & E2) _].
  split; [exact E1|]. apply E2. discriminate.
Defined.

